(** * highseas: wind model, ocean wave field and ship dynamics

    A shallow embedding of the simulation core of the repository
    (store/useWindStore, models/WindModel, models/ShipTypes,
    components/world/Ocean.tsx, components/ships/Ship.tsx) together with
    the properties the specification states about it.

    Numbers.  A JavaScript number is modelled by a rational ([Q]): decimal
    literals denote the rationals they spell, arithmetic is exact, and
    [Math.PI] is the rational value of the double the engine uses.  NaN
    and the infinities are outside the model.  [Math.random] reads from an
    explicit source of draws.  The host functions [Math.cos], [Math.sin],
    [Math.sqrt] and [Math.atan2] are a parameter of the ship and ocean
    code ([HostMath]): a property that needs something of what they
    return says so in a hypothesis.  A store into a [Float32Array] rounds
    to the nearest float32 ([JS.Math_fround]).

    Doubles round where rationals do not.  A property that hinges on a
    comparison which the last digit of a double could decide either way
    (a point on the border of a grid cell, a step exactly at a threshold)
    is therefore stated with a margin around the border, and bounds that
    a rounded value may attain are not strict. *)

From Stdlib Require Import ZArith QArith Qabs Qround Qpower List Bool Lia Lqa.
From Stdlib Require String.
Import ListNotations.
Import String.StringSyntax.
Delimit Scope string_scope with string.

Open Scope Q_scope.

(* ================================================================= *)
(** ** JavaScript numbers *)

Module JS.

(** [a < b] and [a <= b] as the booleans an [if] tests. *)
Definition ltb (a b : Q) : bool := negb (Qle_bool b a).
Definition leb (a b : Q) : bool := Qle_bool a b.
Definition gtb (a b : Q) : bool := ltb b a.

(** [Math.PI]: the double 3.141592653589793 = 884279719003555 / 2^48. *)
Definition Math_PI : Q := 884279719003555 # 281474976710656.

(** Rounding toward zero, as the quotient inside [%]. *)
Definition trunc (q : Q) : Z := Z.quot (Qnum q) (Zpos (Qden q)).

(** The [%] operator: the remainder has the sign of the dividend. *)
Definition rem (a b : Q) : Q := a - b * inject_Z (trunc (a / b)).

Definition Math_abs (a : Q) : Q := Qabs a.
Definition Math_floor (a : Q) : Z := Qfloor a.
Definition Math_min (a b : Z) : Z := Z.min a b.
Definition Math_max (a b : Z) : Z := Z.max a b.
Definition Math_minQ (a b : Q) : Q := if leb a b then a else b.

(** [x || d] on numbers: [d] when [x] is zero. *)
Definition or_else (x d : Q) : Q := if Qeq_bool x 0 then d else x.

Definition Math_ceil (a : Q) : Z := Qceiling a.


(** *** Float32 rounding *)

(** The integer [e] with [2^e <= a < 2^(e+1)], for a positive [a]. *)
Definition ilog2 (a : Q) : Z :=
  let k := (Z.log2 (Qnum a) - Z.log2 (Zpos (Qden a)))%Z in
  if Qle_bool (Qpower 2 k) a then k else (k - 1)%Z.

(** To the nearest integer, a tie to the even one. *)
Definition roundHalfEven (q : Q) : Z :=
  let n := Qfloor q in
  let r := q - inject_Z n in
  if Qle_bool r (1 # 2) then
    if Qle_bool (1 # 2) r then (if Z.even n then n else n + 1)%Z else n
  else (n + 1)%Z.

(** The float32 nearest to a positive number: a significand of 24
    bits at the spacing of its binade. *)
Definition float32Magnitude (a : Q) : Q :=
  let e := Z.max (ilog2 a) (- 126) in
  let ulp := Qpower 2 (e - 23) in
  inject_Z (roundHalfEven (a / ulp)) * ulp.

(** [Math.fround], the conversion a store into a [Float32Array]
    applies: the nearest number with a significand of 24 bits (spacing
    [2^(e-23)] between [2^e] and [2^(e+1)], and [2^-149] below
    [2^-126]), a tie going to the even significand.  Numbers of a
    magnitude beyond the float32 range, which the source would store as
    an infinity, are outside the model. *)
Definition Math_fround (q : Q) : Q :=
  if Qeq_bool q 0 then 0
  else
    let m := float32Magnitude (Qabs q) in
    if Qle_bool 0 q then m else - m.

(** *** The source of random draws *)

Record RNG := mkRNG { draws : nat -> Q; cursor : nat }.

(** A computation that may call [Math.random]. *)
Definition Rand (A : Type) : Type := RNG -> A * RNG.

Definition ret {A} (a : A) : Rand A := fun g => (a, g).
Definition bind {A B} (m : Rand A) (k : A -> Rand B) : Rand B :=
  fun g => let (a, g') := m g in k a g'.

Definition Math_random : Rand Q :=
  fun g => (draws g (cursor g), mkRNG (draws g) (S (cursor g))).

(** A source that replays a finite script of draws (then zeros). *)
Definition script (l : list Q) : RNG := mkRNG (fun n => nth n l 0) 0.

(** Every draw lies in [0, 1). *)
Definition fair (g : RNG) : Prop := forall n, 0 <= draws g n /\ draws g n < 1.

End JS.

Notation "x <- m ;; k" := (JS.bind m (fun x => k))
  (at level 61, m at next level, right associativity).

(* ================================================================= *)
(** ** models/WindModel *)

Module WindModel.
Import JS.

Inductive WindStrength : Type :=
| Calm | LightAir | LightBreeze | GentleBreeze | ModerateBreeze
| FreshBreeze | StrongBreeze | NearGale | Gale | StrongGale
| Storm | ViolentStorm | Hurricane.

Definition WindStrength_eqb (a b : WindStrength) : bool :=
  match a, b with
  | Calm, Calm | LightAir, LightAir | LightBreeze, LightBreeze
  | GentleBreeze, GentleBreeze | ModerateBreeze, ModerateBreeze
  | FreshBreeze, FreshBreeze | StrongBreeze, StrongBreeze
  | NearGale, NearGale | Gale, Gale | StrongGale, StrongGale
  | Storm, Storm | ViolentStorm, ViolentStorm | Hurricane, Hurricane => true
  | _, _ => false
  end.

Record WindState := mkWind {
  direction : Q;
  strength : WindStrength;
  speedKnots : Q;
  fluctuation : Q
}.

Definition getWindSpeed (s : WindStrength) : Q :=
  match s with
  | Calm => 2 | LightAir => 5 | LightBreeze => 9 | GentleBreeze => 14
  | ModerateBreeze => 19 | FreshBreeze => 25 | StrongBreeze => 31
  | NearGale => 37 | Gale => 44 | StrongGale => 52 | Storm => 60
  | ViolentStorm => 68 | Hurricane => 75
  end.

Definition getAngleBetweenWindAndShip (shipHeading windDirection : Q) : Q :=
  let normShipHeading := rem shipHeading (2 * Math_PI) in
  let normWindDirection := rem windDirection (2 * Math_PI) in
  let angleDiff := Math_abs (normShipHeading - normWindDirection) in
  if gtb angleDiff Math_PI then 2 * Math_PI - angleDiff else angleDiff.

Definition getPointOfSailMultiplier (angleBetweenWindAndShip : Q) : Q :=
  let angleDegrees := angleBetweenWindAndShip * (180 / Math_PI) in
  if leb angleDegrees 30 then 1 # 10
  else if leb angleDegrees 60 then 5 # 10
  else if leb angleDegrees 90 then 7 # 10
  else if leb angleDegrees 120 then 1
  else if leb angleDegrees 150 then 9 # 10
  else 6 # 10.

Definition getWindFactor (s : WindStrength) : Q :=
  match s with
  | Calm => 5 # 100 | LightAir => 1 # 10 | LightBreeze => 2 # 10
  | GentleBreeze => 3 # 10 | ModerateBreeze => 4 # 10 | FreshBreeze => 5 # 10
  | StrongBreeze => 6 # 10 | NearGale => 7 # 10 | Gale => 8 # 10
  | StrongGale => 85 # 100 | Storm => 9 # 10 | ViolentStorm => 95 # 100
  | Hurricane => 1
  end.

End WindModel.

(* ================================================================= *)
(** ** store/useWindStore *)

Module WindStore.
Import JS WindModel.

Definition randomInRange (min max : Q) : Rand Q :=
  r <- Math_random ;; ret (r * (max - min) + min).

Definition getRandomWindStrength : Rand WindStrength :=
  rand <- Math_random ;;
  ret (if ltb rand (5 # 100) then Calm
       else if ltb rand (15 # 100) then LightAir
       else if ltb rand (3 # 10) then LightBreeze
       else if ltb rand (5 # 10) then GentleBreeze
       else if ltb rand (7 # 10) then ModerateBreeze
       else if ltb rand (85 # 100) then FreshBreeze
       else if ltb rand (92 # 100) then StrongBreeze
       else if ltb rand (96 # 100) then NearGale
       else if ltb rand (98 # 100) then Gale
       else if ltb rand (99 # 100) then StrongGale
       else if ltb rand (995 # 1000) then Storm
       else if ltb rand (998 # 1000) then ViolentStorm
       else Hurricane).

Definition initialState : WindState :=
  mkWind 0 ModerateBreeze (getWindSpeed ModerateBreeze) (2 # 10).

(** The store's [set] merges the fields it is given into the state. *)
Definition setDirection (direction : Q) (state : WindState) : WindState :=
  mkWind direction (strength state) (speedKnots state) (fluctuation state).

Definition setStrength (strength : WindStrength) (state : WindState) : WindState :=
  mkWind (direction state) strength (getWindSpeed strength) (fluctuation state).

Definition setFluctuation (fluctuation : Q) (state : WindState) : WindState :=
  mkWind (direction state) (strength state) (speedKnots state) fluctuation.

(** [Object.values(WindStrength)]: the members in declaration order. *)
Definition strengths : list WindStrength :=
  [Calm; LightAir; LightBreeze; GentleBreeze; ModerateBreeze; FreshBreeze;
   StrongBreeze; NearGale; Gale; StrongGale; Storm; ViolentStorm; Hurricane].

(** [Array.prototype.indexOf]: the first position, or -1. *)
Fixpoint indexOf_from (l : list WindStrength) (x : WindStrength) (i : Z) : Z :=
  match l with
  | [] => (-1)%Z
  | y :: l' => if WindStrength_eqb y x then i else indexOf_from l' x (i + 1)%Z
  end.
Definition indexOf (l : list WindStrength) (x : WindStrength) : Z :=
  indexOf_from l x 0%Z.

(** [l[i]]: [None] stands for [undefined]. *)
Definition at_index (l : list WindStrength) (i : Z) : option WindStrength :=
  if (i <? 0)%Z then None else nth_error l (Z.to_nat i).

(** The body of [if (Math.random() < 0.01) { ... }] in [updateWind]:
    the new strength, given the current one.  The array reads carry the
    source's [as WindStrength] cast: [strength_step_defined] below shows
    the guards keep both reads inside the array. *)
Definition stepStrength (current : WindStrength) : Rand WindStrength :=
  let currentIndex := indexOf strengths current in
  rand <- Math_random ;;
  if ltb rand (35 # 100) && (currentIndex >? 0)%Z then
    ret (match at_index strengths (currentIndex - 1)%Z with
         | Some s => s | None => current end)
  else if ltb rand (7 # 10) && (currentIndex <? Z.of_nat (length strengths) - 1)%Z then
    ret (match at_index strengths (currentIndex + 1)%Z with
         | Some s => s | None => current end)
  else getRandomWindStrength.

Definition updateWind (delta : Q) (state : WindState) : Rand WindState :=
  gate <- Math_random ;;
  if ltb gate (fluctuation state * delta * (5 # 10)) then
    r <- randomInRange (- (5 # 100)) (5 # 100) ;;
    let directionChange := r * fluctuation state in
    let newDirection := rem (direction state + directionChange) (Math_PI * 2) in
    g2 <- Math_random ;;
    newStrength <- (if ltb g2 (1 # 100) then stepStrength (strength state)
                    else ret (strength state)) ;;
    ret (mkWind newDirection newStrength (getWindSpeed newStrength)
                (fluctuation state))
  else ret state.

(** The object literal is evaluated field by field, in order. *)
Definition randomizeWind (state : WindState) : Rand WindState :=
  d <- Math_random ;;
  s <- getRandomWindStrength ;;
  s' <- getRandomWindStrength ;;
  f <- randomInRange (1 # 10) (4 # 10) ;;
  ret (mkWind (d * Math_PI * 2) s (getWindSpeed s') f).

(** The invariant of the data model. *)
Definition speed_canonical (w : WindState) : Prop :=
  speedKnots w = getWindSpeed (strength w).

End WindStore.

(* ================================================================= *)
(** ** The host's mathematical functions and THREE's vectors *)

Record HostMath := mkHost {
  Math_cos : Q -> Q;
  Math_sin : Q -> Q;
  Math_sqrt : Q -> Q;
  Math_atan2 : Q -> Q -> Q
}.

Module THREE.
Import JS.

Record Vector3 := vec { vx : Q; vy : Q; vz : Q }.

Definition add (a b : Vector3) : Vector3 :=
  vec (vx a + vx b) (vy a + vy b) (vz a + vz b).
Definition sub (a b : Vector3) : Vector3 :=
  vec (vx a - vx b) (vy a - vy b) (vz a - vz b).
Definition multiplyScalar (a : Vector3) (k : Q) : Vector3 :=
  vec (vx a * k) (vy a * k) (vz a * k).
Definition divideScalar (a : Vector3) (k : Q) : Vector3 :=
  vec (vx a / k) (vy a / k) (vz a / k).
Definition dot (a b : Vector3) : Q := vx a * vx b + vy a * vy b + vz a * vz b.
Definition lengthSq (a : Vector3) : Q := dot a a.
Definition crossVectors (a b : Vector3) : Vector3 :=
  vec (vy a * vz b - vz a * vy b)
      (vz a * vx b - vx a * vz b)
      (vx a * vy b - vy a * vx b).

(** [projectOnVector], with its guard on a zero denominator. *)
Definition projectOnVector (a v : Vector3) : Vector3 :=
  let denominator := lengthSq v in
  if Qeq_bool denominator 0 then vec 0 0 0
  else multiplyScalar v (dot v a / denominator).
Definition projectOnPlane (a planeNormal : Vector3) : Vector3 :=
  sub a (projectOnVector a planeNormal).

Section WithHost.
Variable M : HostMath.

Definition length (a : Vector3) : Q := Math_sqrt M (lengthSq a).
Definition normalize (a : Vector3) : Vector3 :=
  divideScalar a (or_else (length a) 1).

(** [applyAxisAngle(new Vector3(0, 1, 0), angle)]: a turn about the
    vertical axis. *)
Definition applyAxisAngleY (a : Vector3) (angle : Q) : Vector3 :=
  let c := Math_cos M angle in
  let s := Math_sin M angle in
  vec (vx a * c + vz a * s) (vy a) (vz a * c - vx a * s).

(** The affine part of a [Matrix4] (its last row is 0 0 0 1). *)
Record Matrix4 := mat {
  m11 : Q; m12 : Q; m13 : Q; m14 : Q;
  m21 : Q; m22 : Q; m23 : Q; m24 : Q;
  m31 : Q; m32 : Q; m33 : Q; m34 : Q
}.

Definition makeRotationY (theta : Q) : Matrix4 :=
  let c := Math_cos M theta in
  let s := Math_sin M theta in
  mat c 0 s 0
      0 1 0 0
      (- s) 0 c 0.

Definition setPosition (m : Matrix4) (p : Vector3) : Matrix4 :=
  mat (m11 m) (m12 m) (m13 m) (vx p)
      (m21 m) (m22 m) (m23 m) (vy p)
      (m31 m) (m32 m) (m33 m) (vz p).

Definition applyMatrix4 (a : Vector3) (m : Matrix4) : Vector3 :=
  vec (m11 m * vx a + m12 m * vy a + m13 m * vz a + m14 m)
      (m21 m * vx a + m22 m * vy a + m23 m * vz a + m24 m)
      (m31 m * vx a + m32 m * vy a + m33 m * vz a + m34 m).

(** [models/WindModel.windDirectionToVector]. *)
Definition windDirectionToVector (direction : Q) : Vector3 :=
  normalize (vec (Math_cos M direction) 0 (Math_sin M direction)).

End WithHost.

End THREE.

(* ================================================================= *)
(** ** models/ShipTypes *)

Module ShipTypes.

Inductive ShipClass : Type :=
| Sloop | Frigate | Galleon | WarGalleon | PinnaceBrig | MerchantBrig.

Record ShipStats := mkStats {
  class : ShipClass;
  speed : Q;
  maneuverability : Q;
  cannons : Q;
  cargoCapacity : Q;
  crewCapacity : Q;
  health : Q;
  draft : Q;
  displacement : Q;
  length : Q;
  width : Q;
  sailArea : Q
}.

Record ShipDamage := mkDamage {
  hullIntegrity : Q;
  sailIntegrity : Q;
  mastIntegrity : Q;
  rudderIntegrity : Q
}.

Definition SHIP_STATS (c : ShipClass) : ShipStats :=
  match c with
  | Sloop => mkStats Sloop 8 9 8 40 75 400 (25 # 10) 150 18 (55 # 10) 180
  | Frigate => mkStats Frigate 6 7 24 80 200 800 (42 # 10) 700 45 12 1200
  | Galleon => mkStats Galleon 4 3 30 160 300 1200 (58 # 10) 1500 50 16 1800
  | WarGalleon => mkStats WarGalleon 5 4 46 120 350 1600 6 1800 55 18 2000
  | PinnaceBrig => mkStats PinnaceBrig 7 8 16 60 120 600 (32 # 10) 280 25 7 400
  | MerchantBrig => mkStats MerchantBrig 5 6 12 100 100 700 (38 # 10) 450 32 9 650
  end.

Definition createDefaultShipDamage : ShipDamage := mkDamage 1 1 1 1.

End ShipTypes.

(* ================================================================= *)
(** ** components/world/Ocean.tsx *)

Module Ocean.
Import JS WindModel.

Definition getWaveScale (strength : WindStrength) (isStorm : bool) : Q :=
  let scale :=
    match strength with
    | Calm => 2 # 10
    | LightAir | LightBreeze => 4 # 10
    | GentleBreeze | ModerateBreeze => 1
    | FreshBreeze | StrongBreeze => 18 # 10
    | NearGale | Gale => 25 # 10
    | StrongGale | Storm => 35 # 10
    | ViolentStorm | Hurricane => 5
    end in
  if isStorm then scale * (15 # 10) else scale.

Definition getMaxWaveHeight (strength : WindStrength) (isStorm : bool) : Q :=
  let height :=
    match strength with
    | Calm => 5 # 100 | LightAir => 1 # 10 | LightBreeze => 2 # 10
    | GentleBreeze => 4 # 10 | ModerateBreeze => 6 # 10
    | FreshBreeze => 8 # 10 | StrongBreeze => 12 # 10 | NearGale => 18 # 10
    | Gale => 25 # 10 | StrongGale => 3 | Storm => 4 | ViolentStorm => 5
    | Hurricane => 7
    end in
  if isStorm then height * (175 # 100) else height.

Definition WAVE_RESOLUTION : Z := 40.
Definition WAVE_SIZE : Q := 100.

(** [waveHeightMap] is a [Float32Array]: its cells in index order, each
    holding the float32 that was stored ([updateWaveHeightMap] rounds). *)
Record OceanState := mkOcean { waveHeightMap : list Q }.

(** [new Float32Array(WAVE_RESOLUTION * WAVE_RESOLUTION)]: all zeros. *)
Definition createOceanState : OceanState :=
  mkOcean (repeat 0 (Z.to_nat (WAVE_RESOLUTION * WAVE_RESOLUTION))).

Section WithHost.
Variable M : HostMath.

(** What the closure of [updateWaveHeightMap] captured. *)
Record WaveParams := mkParams {
  p_speedKnots : Q;
  p_isStorm : bool;
  p_maxWaveHeight : Q;
  p_windDirectionVector : THREE.Vector3
}.

(** The height the loop body computes for grid cell (x, z). *)
Definition cellHeight (p : WaveParams) (time : Q) (x z : nat) : Q :=
  let windFactor := p_speedKnots p * (1 # 100) in
  let stormFactor := if p_isStorm p then 15 # 10 else 1 in
  let worldX := (inject_Z (Z.of_nat x) / inject_Z WAVE_RESOLUTION - (5 # 10)) * WAVE_SIZE in
  let worldZ := (inject_Z (Z.of_nat z) / inject_Z WAVE_RESOLUTION - (5 # 10)) * WAVE_SIZE in
  let directionFactor :=
    THREE.vx (p_windDirectionVector p) * worldX
    + THREE.vz (p_windDirectionVector p) * worldZ in
  let height := 0 in
  let height := height
    + Math_sin M (worldX * (1 # 10) + time * windFactor + directionFactor * (5 # 100)) * (5 # 10) in
  let height := height
    + Math_sin M (worldZ * (15 # 100) + time * (7 # 10) * windFactor) * (3 # 10) in
  let height := height
    + Math_sin M ((worldX + worldZ) * (1 # 10) + time * (3 # 10)) * (2 # 10) in
  let height := height
    + Math_sin M (worldX * (4 # 10) + worldZ * (4 # 10) + time * 2 * windFactor) * (1 # 10) in
  let height :=
    if p_isStorm p then
      let height := height
        + Math_sin M (worldX * (6 # 10) + time * 3 * windFactor) * (2 # 10) * stormFactor in
      let height := height
        + Math_cos M (worldZ * (7 # 10) + time * (25 # 10) * windFactor) * (15 # 100) * stormFactor in
      let randomFactor := Math_sin M (worldX * 5 + worldZ * 5 + time * 4) * (1 # 10) in
      height + randomFactor * stormFactor
    else height in
  height * p_maxWaveHeight p.

(** The two nested loops write cell [z * WAVE_RESOLUTION + x] for z and
    then x ascending, that is every cell once, in index order; the
    store [waveHeightMap[index] = height] rounds to float32. *)
Definition updateWaveHeightMap (p : WaveParams) (time : Q) (o : OceanState) : OceanState :=
  let n := Z.to_nat WAVE_RESOLUTION in
  mkOcean (flat_map (fun z => map (fun x => Math_fround (cellHeight p time x z)) (seq 0 n))
                    (seq 0 n)).

End WithHost.

(** The index [getWaveHeight] reads. *)
Definition waveIndex (x z : Q) : Z :=
  let gridSize := WAVE_SIZE in
  let halfSize := gridSize / 2 in
  let normalizedX := (x + halfSize) / gridSize in
  let normalizedZ := (z + halfSize) / gridSize in
  let gridX := Math_floor (normalizedX * inject_Z WAVE_RESOLUTION) in
  let gridZ := Math_floor (normalizedZ * inject_Z WAVE_RESOLUTION) in
  let clampedX := Math_max 0 (Math_min (WAVE_RESOLUTION - 1) gridX) in
  let clampedZ := Math_max 0 (Math_min (WAVE_RESOLUTION - 1) gridZ) in
  (clampedZ * WAVE_RESOLUTION + clampedX)%Z.

(** [scene.userData.ocean.getWaveHeight]; [None] stands for the
    [undefined] a typed array gives outside its bounds. *)
Definition getWaveHeight (o : OceanState) (x z : Q) : option Q :=
  let index := waveIndex x z in
  if (index <? 0)%Z then None else nth_error (waveHeightMap o) (Z.to_nat index).

(** The field has the size it was created with. *)
Definition well_sized (o : OceanState) : Prop :=
  List.length (waveHeightMap o) = Z.to_nat (WAVE_RESOLUTION * WAVE_RESOLUTION).

End Ocean.

(* ================================================================= *)
(** ** store/useControls *)

Module Controls.
Record ControlState := mkControls {
  forward : bool;
  backward : bool;
  left : bool;
  right : bool
}.

Definition initial : ControlState := mkControls false false false false.

Definition setKey (key : String.string) (pressed : bool) (s : ControlState) : ControlState :=
  if String.eqb key "KeyW"%string then mkControls pressed (backward s) (left s) (right s)
  else if String.eqb key "KeyS"%string then mkControls (forward s) pressed (left s) (right s)
  else if String.eqb key "KeyA"%string then mkControls (forward s) (backward s) pressed (right s)
  else if String.eqb key "KeyD"%string then mkControls (forward s) (backward s) (left s) pressed
  else s.

(** The two listeners of [setupKeyboardControls]. *)
Inductive KeyboardEvent : Type :=
| keydown (code : String.string)
| keyup (code : String.string).

Definition handleEvent (e : KeyboardEvent) (s : ControlState) : ControlState :=
  match e with
  | keydown code => setKey code true s
  | keyup code => setKey code false s
  end.

(** The store after a sequence of events, oldest first. *)
Definition handleEvents (events : list KeyboardEvent) (s : ControlState) : ControlState :=
  fold_left (fun s e => handleEvent e s) events s.
End Controls.

(* ================================================================= *)
(** ** components/ships/Ship.tsx *)

Module Ship.
Import JS WindModel ShipTypes THREE.

Record ShipPhysicsState := mkPhys {
  velocity : Vector3;
  angularVelocity : Vector3;
  buoyancyPoints : list Vector3;
  shipRotation : Q;
  sailAngle : Q;
  previousSailAngle : Q
}.

(** The group [shipRef] points at: its position and its Euler angles. *)
Record Group := mkGroup { position : Vector3; rotation : Vector3 }.

(** [scene.userData.ocean], as far as the ship uses it. *)
Record OceanApi := mkApi { api_getWaveHeight : Q -> Q -> Q }.

Record ShipProps := mkProps { shipClass : ShipClass; damage : ShipDamage }.

(** What one frame reads from outside the component. *)
Record Frame := mkFrame {
  delta : Q;
  controls : Controls.ControlState;
  wind : WindState;
  scene_ocean : option OceanApi
}.

(** The component instance: React state, refs and the meshes' fields
    the frame callback writes ([hullRef] holds the hull's y). *)
Record ShipInstance := mkShip {
  physicsState : ShipPhysicsState;
  isInitialized : bool;
  initializationTime : Q;
  shipRef : option Group;
  hullRef : option Q
}.

Definition span (n : nat) : list Z := map Z.of_nat (seq 0 n).

(** The effect that lays the buoyancy points out over the hull. *)
Definition initBuoyancyPoints (stats : ShipStats) : list Vector3 :=
  let numPointsLength := Math_max 4 (Math_floor (ShipTypes.length stats / 4)) in
  let numPointsWidth := Math_max 2 (Math_floor (width stats / 3)) in
  let lengthScale := 3 / ShipTypes.length stats in
  let widthScale := 1 / width stats in
  flat_map (fun z =>
    let zPos := (inject_Z z / inject_Z (numPointsLength - 1) - (5 # 10))
                * ShipTypes.length stats * lengthScale in
    map (fun x =>
      let xPos := (inject_Z x / inject_Z (numPointsWidth - 1) - (5 # 10))
                  * width stats * widthScale in
      let yPos := - (4 # 10) in
      vec xPos yPos zPos) (span (Z.to_nat numPointsWidth)))
    (span (Z.to_nat numPointsLength)).

(** The instance after mounting at [position] with yaw [rotationY]: the
    group is placed half a unit above the position it is given. *)
Definition mount (props : ShipProps) (position : Vector3) (rotationY : Q) : ShipInstance :=
  mkShip (mkPhys (vec 0 0 0) (vec 0 0 0)
                 (initBuoyancyPoints (SHIP_STATS (shipClass props)))
                 rotationY 0 0)
         false 0
         (Some (mkGroup (vec (vx position) (vy position + (5 # 10)) (vz position))
                        (vec 0 rotationY 0)))
         (Some 0).

Definition getWaveHeight (ocean : option OceanApi) (x z : Q) : Q :=
  match ocean with
  | Some o => api_getWaveHeight o x z
  | None => 0
  end.

Definition sinkDepth (damage : ShipDamage) : Q :=
  (1 - hullIntegrity damage) * (4 # 10).

Definition sailEfficiency (damage : ShipDamage) : Q :=
  sailIntegrity damage * mastIntegrity damage.

Definition rotationSpeed (stats : ShipStats) (delta : Q) : Q :=
  (15 # 10) * (maneuverability stats / 10) * delta.

(** The heading the queued state updates leave: the update for [right]
    is queued after the one for [left], and both are computed from the
    heading this frame started with. *)
Definition turn (c : Controls.ControlState) (damage : ShipDamage)
    (rotationSpeed shipRotation : Q) : Q :=
  let afterLeft :=
    if Controls.left c then
      let rudderFactor := rudderIntegrity damage in
      shipRotation + rotationSpeed * rudderFactor
    else shipRotation in
  if Controls.right c then
    let rudderFactor := rudderIntegrity damage in
    shipRotation - rotationSpeed * rudderFactor
  else afterLeft.

Section WithHost.
Variable M : HostMath.

Definition calculateBuoyancyForce (stats : ShipStats) (damage : ShipDamage)
    (ocean : option OceanApi)
    (pointPosition worldPosition : Vector3) (shipMatrix : Matrix4) : Vector3 :=
  let worldPoint := applyMatrix4 pointPosition shipMatrix in
  let waveHeight := getWaveHeight ocean (vx worldPoint) (vz worldPoint) in
  let depth := waveHeight - vy worldPoint in
  if ltb depth 0 then vec 0 0 0
  else
    let buoyancyFactor := 1 in
    let forceMagnitude :=
      depth * buoyancyFactor * (displacement stats / 1000) * (98 # 10) in
    let damageFactor := hullIntegrity damage in
    vec 0 (forceMagnitude * damageFactor) 0.

(** The wind angle the frame works with. *)
Definition angleBetweenWindAndShip (f : Frame) (ps : ShipPhysicsState) : Q :=
  getAngleBetweenWindAndShip (shipRotation ps) (direction (wind f)).

(** The thrust a frame adds along the heading. *)
Definition finalAcceleration (stats : ShipStats) (damage : ShipDamage)
    (f : Frame) (ps : ShipPhysicsState) : Q :=
  let maxAcceleration := 5 * (speed stats / 10) in
  let realisticSpeedFactor := 3 # 10 in
  let pointOfSailMultiplier :=
    getPointOfSailMultiplier (angleBetweenWindAndShip f ps) in
  maxAcceleration * delta f * pointOfSailMultiplier * sailEfficiency damage
  * realisticSpeedFactor.

(** The share of the wind force that drives the drift. *)
Definition windEffect (damage : ShipDamage) (f : Frame) (ps : ShipPhysicsState) : Q :=
  let realisticSpeedFactor := 3 # 10 in
  let pointOfSailMultiplier :=
    getPointOfSailMultiplier (angleBetweenWindAndShip f ps) in
  let windForce := speedKnots (wind f) * (1 # 100) in
  windForce * pointOfSailMultiplier * sailEfficiency damage * realisticSpeedFactor.

(** The factor the velocity keeps per frame, smaller into the wind. *)
Definition finalDrag (f : Frame) (ps : ShipPhysicsState) : Q :=
  let baseDrag := 95 # 100 in
  let angleBetweenWindAndShip := angleBetweenWindAndShip f ps in
  let headwindFactor :=
    if ltb angleBetweenWindAndShip (Math_PI / 2) then
      (98 # 100) + (4 # 100) * (1 - angleBetweenWindAndShip / (Math_PI / 2))
    else 98 # 100 in
  Math_minQ (baseDrag * headwindFactor) (99 # 100).

(** Thrust, drift, backing and drag: the velocity after
    [newVelocity.multiplyScalar(finalDrag)]. *)
Definition propel (stats : ShipStats) (damage : ShipDamage) (f : Frame)
    (ps : ShipPhysicsState) : Vector3 :=
  let forwardDir := applyAxisAngleY M (vec 0 0 (-1)) (shipRotation ps) in
  let newVelocity := velocity ps in
  let maxAcceleration := 5 * (speed stats / 10) in
  let realisticSpeedFactor := 3 # 10 in
  let windVector := windDirectionToVector M (direction (wind f)) in
  let finalAcceleration := finalAcceleration stats damage f ps in
  let newVelocity :=
    if Controls.forward (controls f) then
      let windEffect := windEffect damage f ps in
      let newVelocity := add newVelocity (multiplyScalar forwardDir finalAcceleration) in
      let windDrift := projectOnPlane windVector forwardDir in
      let lateralDriftFactor :=
        (2 # 10) * (10 / cargoCapacity stats) * realisticSpeedFactor in
      add newVelocity (multiplyScalar windDrift (windEffect * lateralDriftFactor))
    else newVelocity in
  let newVelocity :=
    if Controls.backward (controls f) then
      add newVelocity
          (multiplyScalar forwardDir
             (- maxAcceleration * (2 # 10) * delta f * realisticSpeedFactor))
    else newVelocity in
  let finalDrag := finalDrag f ps in
  multiplyScalar newVelocity finalDrag.

(** The [forEach] over the buoyancy points: total force and torque. *)
Definition buoyancy (stats : ShipStats) (damage : ShipDamage)
    (ocean : option OceanApi) (points : list Vector3)
    (shipPos : Vector3) (shipMatrix : Matrix4) : Vector3 * Vector3 :=
  fold_left
    (fun (acc : Vector3 * Vector3) point =>
       let (totalBuoyancyForce, totalTorque) := acc in
       let force :=
         calculateBuoyancyForce stats damage ocean point shipPos shipMatrix in
       if gtb (lengthSq force) 0 then
         let worldPoint := applyMatrix4 point shipMatrix in
         let relPos := sub worldPoint shipPos in
         let torque := crossVectors relPos force in
         (add totalBuoyancyForce force, add totalTorque torque)
       else acc)
    points (vec 0 0 0, vec 0 0 0).

Definition maxSpeed (stats : ShipStats) (pointOfSailMultiplier : Q) : Q :=
  (speed stats / 10) * (1 + pointOfSailMultiplier * (5 # 10)) * (3 # 10).

(** The cap on the horizontal speed; the vertical part is kept. *)
Definition capSpeed (maxSpeed : Q) (newVelocity : Vector3) : Vector3 :=
  let horizontalVelocity := vec (vx newVelocity) 0 (vz newVelocity) in
  if gtb (THREE.length M horizontalVelocity) maxSpeed then
    let horizontalVelocity :=
      multiplyScalar (normalize M horizontalVelocity) maxSpeed in
    vec (vx horizontalVelocity) (vy newVelocity) (vz horizontalVelocity)
  else newVelocity.

(** The frame callback past the stabilisation branch. *)
Definition integrate (props : ShipProps) (f : Frame) (group : Group)
    (s : ShipInstance) : ShipInstance :=
  let stats := SHIP_STATS (shipClass props) in
  let damage := damage props in
  let ps := physicsState s in
  let shipMatrix :=
    setPosition (makeRotationY M (shipRotation ps)) (position group) in
  let newAngularVelocity := angularVelocity ps in
  let pointOfSailMultiplier :=
    getPointOfSailMultiplier (angleBetweenWindAndShip f ps) in
  let newRotation :=
    turn (controls f) damage (rotationSpeed stats (delta f)) (shipRotation ps) in
  let newVelocity := propel stats damage f ps in
  let shipPos := position group in
  let (totalBuoyancyForce, totalTorque) :=
    buoyancy stats damage (scene_ocean f) (buoyancyPoints ps) shipPos shipMatrix in
  let buoyancyFactor := 1 # 100 in
  let newVelocity :=
    add newVelocity (multiplyScalar totalBuoyancyForce (buoyancyFactor * delta f)) in
  let torqueFactor := 5 # 10000 in
  let newAngularVelocity :=
    add newAngularVelocity (multiplyScalar totalTorque (torqueFactor * delta f)) in
  let newVelocity :=
    vec (vx newVelocity) (vy newVelocity - (5 # 100) * delta f) (vz newVelocity) in
  let newAngularVelocity := multiplyScalar newAngularVelocity (95 # 100) in
  let newVelocity := capSpeed (maxSpeed stats pointOfSailMultiplier) newVelocity in
  let newPosition := add (position group) newVelocity in
  let bowPos := applyMatrix4 (vec 0 0 (- (15 # 10))) shipMatrix in
  let sternPos := applyMatrix4 (vec 0 0 (15 # 10)) shipMatrix in
  let bowWaveHeight := getWaveHeight (scene_ocean f) (vx bowPos) (vz bowPos) in
  let sternWaveHeight := getWaveHeight (scene_ocean f) (vx sternPos) (vz sternPos) in
  let pitchFromWaves :=
    Math_atan2 M (sternWaveHeight - bowWaveHeight) 3 * (5 # 10) in
  let portPos := applyMatrix4 (vec (- (5 # 10)) 0 0) shipMatrix in
  let starboardPos := applyMatrix4 (vec (5 # 10) 0 0) shipMatrix in
  let portWaveHeight := getWaveHeight (scene_ocean f) (vx portPos) (vz portPos) in
  let starboardWaveHeight :=
    getWaveHeight (scene_ocean f) (vx starboardPos) (vz starboardPos) in
  let rollFromWaves :=
    Math_atan2 M (starboardWaveHeight - portWaveHeight) 1 * (5 # 10) in
  let blendFactor := 8 # 10 in
  let targetPitch :=
    vx newAngularVelocity * (1 - blendFactor) + pitchFromWaves * blendFactor in
  let targetRoll :=
    vz newAngularVelocity * (1 - blendFactor) + rollFromWaves * blendFactor in
  mkShip
    (mkPhys newVelocity newAngularVelocity (buoyancyPoints ps) newRotation
            (sailAngle ps) (previousSailAngle ps))
    (isInitialized s)
    (initializationTime s)
    (Some (mkGroup newPosition (vec targetPitch (shipRotation ps) targetRoll)))
    (match hullRef s with
     | Some _ => Some (- sinkDepth damage)
     | None => None
     end).

(** The callback given to [useFrame]. *)
Definition useFrame (props : ShipProps) (f : Frame) (s : ShipInstance) : ShipInstance :=
  match shipRef s with
  | None => s
  | Some group =>
    if (List.length (buoyancyPoints (physicsState s)) =? 0)%nat then s
    else if negb (isInitialized s) then
      let t := initializationTime s + delta f in
      match scene_ocean f with
      | Some ocean =>
        let waterHeight :=
          or_else (api_getWaveHeight ocean (vx (position group)) (vz (position group))) 0 in
        let stats := SHIP_STATS (shipClass props) in
        let y := waterHeight - (3 # 10) * draft stats / 10 in
        mkShip (physicsState s)
               (if gtb t (5 # 10) then true else isInitialized s)
               t
               (Some (mkGroup (vec (vx (position group)) y (vz (position group)))
                              (rotation group)))
               (hullRef s)
      | None =>
        integrate props f group
          (mkShip (physicsState s) (isInitialized s) t (shipRef s) (hullRef s))
      end
    else integrate props f group s
  end.

(** The frames of a run, oldest first. *)
Fixpoint run (props : ShipProps) (frames : list Frame) (s : ShipInstance) : ShipInstance :=
  match frames with
  | [] => s
  | f :: frames' => run props frames' (useFrame props f s)
  end.

End WithHost.

(** *** The sail trim *)

Definition calculateOptimalSailAngle (angleBetweenWindAndShip : Q) : Q :=
  let angleDegrees := angleBetweenWindAndShip * (180 / Math_PI) in
  if leb angleDegrees 30 then 0
  else if leb angleDegrees 60 then 8 # 10
  else if leb angleDegrees 120 then 5 # 10
  else if leb angleDegrees 150 then 2 # 10
  else 0.

(** The trim the effect aims at, fixed when the effect starts. *)
Definition optimalSailAngle (windDirection : Q) (ps : ShipPhysicsState) : Q :=
  calculateOptimalSailAngle (getAngleBetweenWindAndShip (shipRotation ps) windDirection).

(** The state update of the 100 ms interval: a tenth of the way to the
    optimal trim, unless that is a change of 0.01 or less. *)
Definition adjustSail (optimalSailAngle : Q) (state : ShipPhysicsState) : ShipPhysicsState :=
  let newAngle := sailAngle state + (optimalSailAngle - sailAngle state) * (1 # 10) in
  if gtb (Math_abs (newAngle - sailAngle state)) (1 # 100) then
    mkPhys (velocity state) (angularVelocity state) (buoyancyPoints state)
           (shipRotation state) newAngle (previousSailAngle state)
  else state.

(** [n] ticks of the interval. *)
Fixpoint adjustSailTimes (n : nat) (optimalSailAngle : Q) (state : ShipPhysicsState)
    : ShipPhysicsState :=
  match n with
  | O => state
  | S n' => adjustSailTimes n' optimalSailAngle (adjustSail optimalSailAngle state)
  end.

End Ship.

(* ================================================================= *)
(** ** App.tsx and the control panels *)

Module DamageControl.

(** The four sliders' values, as the panel shows them. *)
Record State := mkState {
  hullIntegrity : Q;
  sailIntegrity : Q;
  mastIntegrity : Q;
  rudderIntegrity : Q
}.

Definition initial : State := mkState 1 1 1 1.

(** Each handler stores the slider's value and reports it with the
    name of its component: the new state and the arguments of
    [onUpdateDamage]. *)
Definition handleHullChange (value : Q) (st : State) : State * (String.string * Q) :=
  (mkState value (sailIntegrity st) (mastIntegrity st) (rudderIntegrity st),
   ("hull"%string, value)).

Definition handleSailChange (value : Q) (st : State) : State * (String.string * Q) :=
  (mkState (hullIntegrity st) value (mastIntegrity st) (rudderIntegrity st),
   ("sail"%string, value)).

Definition handleMastChange (value : Q) (st : State) : State * (String.string * Q) :=
  (mkState (hullIntegrity st) (sailIntegrity st) value (rudderIntegrity st),
   ("mast"%string, value)).

Definition handleRudderChange (value : Q) (st : State) : State * (String.string * Q) :=
  (mkState (hullIntegrity st) (sailIntegrity st) (mastIntegrity st) value,
   ("rudder"%string, value)).

End DamageControl.

Module WeatherControl.
Import WindModel.

(** The toggle: the new flag and the arguments of [onWeatherChange]. *)
Definition handleWeatherToggle (isStorm : bool) : bool * (bool * WindStrength) :=
  let newStormState := negb isStorm in
  let windStrength := if newStormState then Storm else ModerateBreeze in
  (newStormState, (newStormState, windStrength)).

End WeatherControl.

Module App.
Import WindModel ShipTypes.

Record AppState := mkApp {
  shipDamage : ShipDamage;
  isStormActive : bool;
  selectedShip : ShipClass
}.

Definition initial : AppState := mkApp createDefaultShipDamage false Frigate.

(** The updater given to [setShipDamage]. *)
Definition handleDamageUpdate (type : String.string) (value : Q) (prev : ShipDamage)
    : ShipDamage :=
  if String.eqb type "hull"%string then
    mkDamage value (sailIntegrity prev) (mastIntegrity prev) (rudderIntegrity prev)
  else if String.eqb type "sail"%string then
    mkDamage (hullIntegrity prev) value (mastIntegrity prev) (rudderIntegrity prev)
  else if String.eqb type "mast"%string then
    mkDamage (hullIntegrity prev) (sailIntegrity prev) value (rudderIntegrity prev)
  else if String.eqb type "rudder"%string then
    mkDamage (hullIntegrity prev) (sailIntegrity prev) (mastIntegrity prev) value
  else prev.

(** The weather handler writes the flag of the app and the wind store. *)
Definition handleWeatherChange (isStorm : bool) (windStrength : WindStrength)
    (app : AppState) (w : WindState) : AppState * WindState :=
  (mkApp (shipDamage app) isStorm (selectedShip app),
   WindStore.setFluctuation (if isStorm then 4 # 10 else 2 # 10)
     (WindStore.setStrength windStrength w)).

Definition handleShipSelect (shipClass : ShipClass) (app : AppState) : AppState :=
  mkApp (shipDamage app) (isStormActive app) shipClass.

End App.

(* ================================================================= *)
(** ** components/ui/WindIndicator *)

Module WindIndicator.
Import JS.




End WindIndicator.

(* ================================================================= *)
(** ** A reference host

    Fixed-point approximations of the host functions (60 fractional
    bits), used only to run the code on concrete inputs. *)

Module RefHost.
Import JS.

(** Fixed-point rounding to 60 fractional bits. *)
Definition scale : Z := 2 ^ 60.
Definition fx (q : Q) : Q := inject_Z (Qfloor (q * inject_Z scale)) / inject_Z scale.

Definition sqrt (q : Q) : Q :=
  inject_Z (Z.sqrt (Qfloor (q * inject_Z (scale * scale)))) / inject_Z scale.

(** [sum_{k < n} (-1)^k t^(2k+s) / (2k+s)!], by Horner's rule. *)
Fixpoint alt_series (n : nat) (k : Z) (t2 : Q) : Q :=
  match n with
  | O => 1
  | S n' => 1 - fx (t2 / inject_Z (k * (k + 1)) * alt_series n' (k + 2) t2)
  end.

(** The argument brought into [-PI, PI]. *)
Definition reduce (x : Q) : Q :=
  let turns := Qfloor (x / (2 * Math_PI) + (1 # 2)) in
  fx (x - inject_Z turns * (2 * Math_PI)).

Definition cos (x : Q) : Q :=
  let t := reduce x in fx (alt_series 18 1 (t * t)).
Definition sin (x : Q) : Q :=
  let t := reduce x in fx (t * alt_series 18 2 (t * t)).

(** [t - t^3/3 + t^5/5 - ...], for small [t]. *)
Fixpoint atan_series (n : nat) (k : Z) (t2 : Q) : Q :=
  match n with
  | O => 0
  | S n' => 1 / inject_Z k - fx (t2 * atan_series n' (k + 2) t2)
  end.

Definition halve (t : Q) : Q := fx (t / (1 + sqrt (1 + t * t))).

Definition atan (t : Q) : Q :=
  let u := halve (halve (halve t)) in
  fx (8 * (u * atan_series 24 1 (u * u))).

Definition atan2 (y x : Q) : Q :=
  if ltb 0 x then atan (y / x)
  else if ltb x 0 then
    (if ltb y 0 then atan (y / x) - Math_PI else atan (y / x) + Math_PI)
  else if ltb 0 y then Math_PI / 2
  else if ltb y 0 then - (Math_PI / 2)
  else 0.

Definition host : HostMath := mkHost cos sin sqrt atan2.

End RefHost.

(* ================================================================= *)
(** ** The vocabulary of the properties *)

(** The result of a computation, apart from the draws it leaves. *)
Definition result {A} (m : JS.Rand A) (g : JS.RNG) : A := fst (m g).

(** The source [k] draws further on. *)
Definition skip (k : nat) (g : JS.RNG) : JS.RNG :=
  JS.mkRNG (JS.draws g) (k + JS.cursor g).

(** The wave field as the scene offers it to the ships.  The read is
    always inside a field of the created size ([waveIndex_range]), so
    the second branch is never taken. *)
Definition registered (o : Ocean.OceanState) : Ship.OceanApi :=
  Ship.mkApi (fun x z =>
    match Ocean.getWaveHeight o x z with
    | Some h => h
    | None => 0
    end).

(** What can happen to the wind store, apart from [randomizeWind]. *)
Inductive WindAction : Type :=
| DoSetDirection (direction : Q)
| DoSetStrength (strength : WindModel.WindStrength)
| DoSetFluctuation (fluctuation : Q)
| DoUpdateWind (delta : Q)
| DoWeatherToggle (isStorm : bool).

Definition applyAction (a : WindAction) (w : WindModel.WindState)
    : JS.Rand WindModel.WindState :=
  match a with
  | DoSetDirection d => JS.ret (WindStore.setDirection d w)
  | DoSetStrength s => JS.ret (WindStore.setStrength s w)
  | DoSetFluctuation x => JS.ret (WindStore.setFluctuation x w)
  | DoUpdateWind delta => WindStore.updateWind delta w
  | DoWeatherToggle isStorm =>
      let '(_, (newStorm, strength)) := WeatherControl.handleWeatherToggle isStorm in
      JS.ret (snd (App.handleWeatherChange newStorm strength App.initial w))
  end.

Fixpoint applyActions (actions : list WindAction) (w : WindModel.WindState)
    : JS.Rand WindModel.WindState :=
  match actions with
  | [] => JS.ret w
  | a :: actions' => w' <- applyAction a w ;; applyActions actions' w'
  end.

(** A slider of the damage panel moved to a value. *)
Inductive SliderChange : Type :=
| HullTo (value : Q) | SailTo (value : Q) | MastTo (value : Q) | RudderTo (value : Q).

(** The panel and the app together: the handler of the slider runs, then
    the app's updater with the arguments the handler reported. *)
Definition slide (c : SliderChange) (st : DamageControl.State * ShipTypes.ShipDamage)
    : DamageControl.State * ShipTypes.ShipDamage :=
  let (panel, damage) := st in
  let (panel', report) :=
    match c with
    | HullTo v => DamageControl.handleHullChange v panel
    | SailTo v => DamageControl.handleSailChange v panel
    | MastTo v => DamageControl.handleMastChange v panel
    | RudderTo v => DamageControl.handleRudderChange v panel
    end in
  (panel', App.handleDamageUpdate (fst report) (snd report) damage).

Definition slides (cs : list SliderChange) (st : DamageControl.State * ShipTypes.ShipDamage)
    : DamageControl.State * ShipTypes.ShipDamage :=
  fold_left (fun st c => slide c st) cs st.

(** The value a slider change carries. *)
Definition slider_value (c : SliderChange) : Q :=
  match c with HullTo v | SailTo v | MastTo v | RudderTo v => v end.

(** The last state a key was put in by a list of events, if any. *)
Fixpoint last_state (code : String.string) (events : list Controls.KeyboardEvent)
    (before : bool) : bool :=
  match events with
  | [] => before
  | Controls.keydown c :: events' =>
      last_state code events' (if String.eqb c code then true else before)
  | Controls.keyup c :: events' =>
      last_state code events' (if String.eqb c code then false else before)
  end.



(** A host whose sine and cosine stay within [-1, 1]. *)
Definition within_unit (M : HostMath) : Prop :=
  forall t, (- 1 <= Math_sin M t /\ Math_sin M t <= 1)
            /\ (- 1 <= Math_cos M t /\ Math_cos M t <= 1).

Definition clamp_unit (x : Q) : Q :=
  if JS.ltb x (- 1) then - 1 else if JS.ltb 1 x then 1 else x.

(** The reference host with its sine and cosine cut off at -1 and 1. *)
Definition unit_host : HostMath :=
  mkHost (fun t => clamp_unit (RefHost.cos t)) (fun t => clamp_unit (RefHost.sin t))
         RefHost.sqrt RefHost.atan2.


(** The footprint of grid cell [i] along one axis, from the world
    coordinate of the cell, [(i / 40 - 0.5) * 100], to that of the next
    (2.5 world units), less a margin of 0.001 at either border, where the
    last digit of the host's arithmetic decides the cell. *)
Definition inside_cell (i : nat) (w : Q) : Prop :=
  (inject_Z (Z.of_nat i) / 40 - (5 # 10)) * 100 + (1 # 1000) <= w
  /\ w <= (inject_Z (Z.of_nat i + 1) / 40 - (5 # 10)) * 100 - (1 # 1000).

(** A field whose cells hold their own index. *)
Definition numbered : Ocean.OceanState :=
  Ocean.mkOcean (map (fun i => inject_Z (Z.of_nat i)) (seq 0 1600)).

(** The four components of a damage within [0, 1]. *)
Definition damage_in_range (d : ShipTypes.ShipDamage) : Prop :=
  (0 <= ShipTypes.hullIntegrity d /\ ShipTypes.hullIntegrity d <= 1)
  /\ (0 <= ShipTypes.sailIntegrity d /\ ShipTypes.sailIntegrity d <= 1)
  /\ (0 <= ShipTypes.mastIntegrity d /\ ShipTypes.mastIntegrity d <= 1)
  /\ (0 <= ShipTypes.rudderIntegrity d /\ ShipTypes.rudderIntegrity d <= 1).

Section Vocabulary.
Import JS WindModel ShipTypes THREE Ship.
Variable M : HostMath.


(** A ship past its stabilisation, mounted and with its points laid out. *)
Definition active (s : ShipInstance) : Prop :=
  shipRef s <> None
  /\ buoyancyPoints (physicsState s) <> []
  /\ isInitialized s = true.

(** +1 for a turn to port, -1 for a turn to starboard (which wins when
    both keys are down), 0 for none. *)
Definition rudder_sign (c : Controls.ControlState) : Q :=
  if Controls.right c then - 1 else if Controls.left c then 1 else 0.


(** Sailing ahead: the forward key alone. *)
Definition ahead (f : Frame) : Prop :=
  Controls.forward (controls f) = true /\ Controls.backward (controls f) = false.



(** The squared horizontal speed. *)
Definition horizontalSpeedSq (s : ShipInstance) : Q :=
  vx (velocity (physicsState s)) * vx (velocity (physicsState s))
  + vz (velocity (physicsState s)) * vz (velocity (physicsState s)).

(** The velocity [integrate] has computed when it reaches the speed cap:
    thrust and drag, then buoyancy, then gravity. *)
Definition beforeCap (props : ShipProps) (f : Frame) (group : Group)
    (s : ShipInstance) : Vector3 :=
  let stats := SHIP_STATS (shipClass props) in
  let ps := physicsState s in
  let shipMatrix := setPosition (makeRotationY M (shipRotation ps)) (position group) in
  let total :=
    fst (buoyancy stats (damage props) (scene_ocean f) (buoyancyPoints ps)
                  (position group) shipMatrix) in
  let pushed :=
    add (propel M stats (damage props) f ps)
        (multiplyScalar total ((1 # 100) * delta f)) in
  vec (vx pushed) (vy pushed - (5 # 100) * delta f) (vz pushed).

(** Whether the cap replaces the horizontal velocity in this frame. *)
Definition capBinds (props : ShipProps) (f : Frame) (group : Group)
    (s : ShipInstance) : bool :=
  let v := beforeCap props f group s in
  gtb (THREE.length M (vec (vx v) 0 (vz v)))
      (maxSpeed (SHIP_STATS (shipClass props))
                (getPointOfSailMultiplier (angleBetweenWindAndShip f (physicsState s)))).

(** What a frame of sailing ahead adds to the velocity of the intact
    ship, before drag: thrust along the heading and drift across it. *)
Definition unitThrust (stats : ShipStats) (f : Frame) (ps : ShipPhysicsState) : Vector3 :=
  let forwardDir := applyAxisAngleY M (vec 0 0 (-1)) (shipRotation ps) in
  let windVector := windDirectionToVector M (direction (wind f)) in
  let windDrift := projectOnPlane windVector forwardDir in
  let lateralDriftFactor := (2 # 10) * (10 / cargoCapacity stats) * (3 # 10) in
  add (multiplyScalar forwardDir (finalAcceleration stats createDefaultShipDamage f ps))
      (multiplyScalar windDrift
         (windEffect createDefaultShipDamage f ps * lateralDriftFactor)).


End Vocabulary.

(** A Sloop on a flat sea, stabilised by one long frame, then sailed
    ahead at 60 frames a second with the wind 2 rad (about 115 degrees)
    off its heading, the optimal point of sail. *)
Module Scenario.
Import THREE ShipTypes Ship.

Definition flat : OceanApi := mkApi (fun _ _ => 0).
Definition breeze : WindModel.WindState :=
  WindModel.mkWind 2 WindModel.ModerateBreeze 19 (2 # 10).
Definition idle : Frame :=
  mkFrame 1 (Controls.mkControls false false false false) breeze (Some flat).
Definition sail : Frame :=
  mkFrame (1 # 60) (Controls.mkControls true false false false) breeze (Some flat).
Definition port : Frame :=
  mkFrame (1 # 60) (Controls.mkControls true false true false) breeze (Some flat).
Definition sloop (d : ShipDamage) : ShipProps := mkProps Sloop d.

(** The ship after its stabilisation (which does not read the damage). *)
Definition settled : ShipInstance :=
  useFrame RefHost.host (sloop createDefaultShipDamage) idle
           (mount (sloop createDefaultShipDamage) (vec 0 1 0) 0).


(** The settled ship given the velocity at which thrust and drag
    balance: [v = (v + e * t) * drag] for [v = e * t * drag / (1 - drag)]. *)
Definition balanced (d : ShipDamage) : ShipInstance :=
  let ps := physicsState settled in
  let drag := finalDrag sail ps in
  let t := unitThrust RefHost.host (SHIP_STATS Sloop) sail ps in
  let k := sailEfficiency d * (drag / (1 - drag)) in
  mkShip (mkPhys (vec (vx t * k) 0 (vz t * k)) (angularVelocity ps)
                 (buoyancyPoints ps) (shipRotation ps) (sailAngle ps)
                 (previousSailAngle ps))
         (isInitialized settled) (initializationTime settled)
         (shipRef settled) (hullRef settled).

End Scenario.

(* ================================================================= *)
(** * Properties *)

(** Runs a computation on its source of draws: unfolds the sequencing
    down to the reads of [draws] and [cursor]. *)
Ltac run_rand :=
  cbv beta iota zeta delta [JS.bind JS.Math_random WindStore.randomInRange JS.ret];
  cbn [JS.draws JS.cursor Nat.add].

(** ** Comparisons and the remainder *)

Section JSFacts.
Import JS.

Lemma ltb_lt (a b : Q) : ltb a b = true <-> a < b.
Proof.
  unfold ltb. rewrite negb_true_iff.
  split; intro H.
  - apply Qnot_le_lt. intro Hle. apply Qle_bool_iff in Hle. congruence.
  - destruct (Qle_bool b a) eqn:E; [|reflexivity].
    apply Qle_bool_iff in E. exfalso. apply (Qlt_not_le _ _ H E).
Qed.

Lemma ltb_ge (a b : Q) : ltb a b = false <-> b <= a.
Proof.
  unfold ltb. rewrite negb_false_iff. apply Qle_bool_iff.
Qed.

Lemma leb_le (a b : Q) : leb a b = true <-> a <= b.
Proof. apply Qle_bool_iff. Qed.

Lemma leb_gt (a b : Q) : leb a b = false <-> b < a.
Proof.
  unfold leb. split; intro H.
  - apply Qnot_le_lt. intro Hle. apply Qle_bool_iff in Hle. congruence.
  - destruct (Qle_bool a b) eqn:E; [|reflexivity].
    apply Qle_bool_iff in E. exfalso. apply (Qlt_not_le _ _ H E).
Qed.

(** Truncation is within one of its argument, on the side of zero. *)
Lemma trunc_nonneg (q : Q) :
  0 <= q -> inject_Z (trunc q) <= q /\ q < inject_Z (trunc q) + 1.
Proof.
  intro Hq. destruct q as [n d]. unfold trunc; simpl.
  assert (Hn : (0 <= n)%Z).
  { unfold Qle in Hq; simpl in Hq. lia. }
  rewrite Z.quot_div_nonneg by lia.
  fold (Qfloor (n # d)).
  split; [apply Qfloor_le|].
  replace (inject_Z (Qfloor (n # d)) + 1) with (inject_Z (Qfloor (n # d)) + inject_Z 1)
    by reflexivity.
  rewrite <- inject_Z_plus. apply Qlt_floor.
Qed.

Lemma trunc_opp (q : Q) : trunc (- q) = (- trunc q)%Z.
Proof. destruct q as [n d]. unfold trunc; simpl. apply Z.quot_opp_l. lia. Qed.

Lemma trunc_nonpos (q : Q) :
  q <= 0 -> q <= inject_Z (trunc q) /\ inject_Z (trunc q) - 1 < q.
Proof.
  intro Hq.
  assert (H0 : 0 <= - q) by lra.
  destruct (trunc_nonneg (- q) H0) as [A B].
  rewrite trunc_opp, inject_Z_opp in A, B.
  split; lra.
Qed.

(** [a % b] for a positive [b]: between [-b] and [b], with the sign of [a]. *)
Lemma rem_nonneg (a b : Q) : 0 < b -> 0 <= a -> 0 <= rem a b /\ rem a b < b.
Proof.
  intros Hb Ha. unfold rem.
  assert (Hq : 0 <= a / b).
  { apply Qle_shift_div_l; [exact Hb | lra]. }
  destruct (trunc_nonneg _ Hq) as [A B].
  assert (E : a == (a / b) * b) by (field; lra).
  set (t := inject_Z (trunc (a / b))) in *.
  assert (A' : t * b <= (a / b) * b) by (apply Qmult_le_compat_r; lra).
  assert (B' : (a / b) * b < (t + 1) * b) by (apply Qmult_lt_compat_r; lra).
  split; lra.
Qed.

Lemma rem_nonpos (a b : Q) : 0 < b -> a <= 0 -> - b < rem a b /\ rem a b <= 0.
Proof.
  intros Hb Ha. unfold rem.
  assert (Hq : a / b <= 0).
  { apply Qle_shift_div_r; [exact Hb | lra]. }
  destruct (trunc_nonpos _ Hq) as [A B].
  assert (E : a == (a / b) * b) by (field; lra).
  set (t := inject_Z (trunc (a / b))) in *.
  assert (A' : (a / b) * b <= t * b) by (apply Qmult_le_compat_r; lra).
  assert (B' : (t - 1) * b < (a / b) * b) by (apply Qmult_lt_compat_r; lra).
  split; lra.
Qed.

Lemma rem_bounds (a b : Q) : 0 < b -> - b < rem a b /\ rem a b < b.
Proof.
  intro Hb. destruct (Qlt_le_dec a 0) as [Ha | Ha].
  - destruct (rem_nonpos a b Hb) as [A B]; [lra | split; lra].
  - destruct (rem_nonneg a b Hb Ha) as [A B]. split; lra.
Qed.

(** Truncation is the one integer within one of a non-negative number,
    from below. *)
Lemma trunc_unique (q : Q) (n : Z) :
  0 <= q -> inject_Z n <= q -> q < inject_Z n + 1 -> trunc q = n.
Proof.
  intros Hq Hl Hu. destruct (trunc_nonneg q Hq) as [A B].
  assert (H1 : inject_Z (trunc q) < inject_Z (n + 1)).
  { rewrite inject_Z_plus. change (inject_Z 1) with 1. lra. }
  assert (H2 : inject_Z n < inject_Z (trunc q + 1)).
  { rewrite inject_Z_plus. change (inject_Z 1) with 1. lra. }
  rewrite <- Zlt_Qlt in H1, H2. lia.
Qed.

(** A remainder that has nothing to take away. *)
Lemma rem_small (a b : Q) : 0 <= a -> a < b -> rem a b == a.
Proof.
  intros Ha Hb. unfold rem.
  assert (Hq : 0 <= a / b) by (apply Qle_shift_div_l; lra).
  assert (Hq1 : a / b < 1) by (apply Qlt_shift_div_r; lra).
  rewrite (trunc_unique (a / b) 0 Hq); [change (inject_Z 0) with 0; ring | exact Hq |].
  change (inject_Z 0) with 0. lra.
Qed.

(** Equal non-negative dividends have equal remainders. *)
Lemma rem_equal (a a' b : Q) : 0 < b -> 0 <= a -> a == a' -> rem a b == rem a' b.
Proof.
  intros Hb Ha E. unfold rem.
  assert (Hq : 0 <= a / b) by (apply Qle_shift_div_l; lra).
  destruct (trunc_nonneg _ Hq) as [A B].
  assert (Eq : a' / b == a / b) by (rewrite E; reflexivity).
  assert (T : trunc (a' / b) = trunc (a / b)).
  { apply trunc_unique; rewrite Eq; assumption. }
  rewrite T. set (t := inject_Z (trunc (a / b))). rewrite E. reflexivity.
Qed.

(** One more period on a non-negative dividend changes nothing. *)
Lemma rem_add_period (a b : Q) : 0 < b -> 0 <= a -> rem (a + b) b == rem a b.
Proof.
  intros Hb Ha. unfold rem.
  assert (Hq : 0 <= a / b) by (apply Qle_shift_div_l; lra).
  destruct (trunc_nonneg _ Hq) as [A B].
  assert (E : (a + b) / b == a / b + 1) by (field; lra).
  assert (T : trunc ((a + b) / b) = (trunc (a / b) + 1)%Z).
  { apply trunc_unique.
    - rewrite E. lra.
    - rewrite E, inject_Z_plus. change (inject_Z 1) with 1. lra.
    - rewrite E, inject_Z_plus. change (inject_Z 1) with 1. lra. }
  rewrite T, inject_Z_plus. change (inject_Z 1) with 1. ring.
Qed.

(** Reducing a non-negative number twice is reducing it once. *)
Lemma rem_rem (a b : Q) : 0 < b -> 0 <= a -> rem (rem a b) b == rem a b.
Proof.
  intros Hb Ha. destruct (rem_nonneg a b Hb Ha) as [A B].
  apply rem_small; assumption.
Qed.

End JSFacts.

(* ================================================================= *)
(** ** The wind store *)

Section WindStoreFacts.
Import JS WindModel WindStore.

Lemma setStrength_canonical (st : WindStrength) (s : WindState) :
  speed_canonical (setStrength st s).
Proof. reflexivity. Qed.

(** The state [updateWind] stores when its outer test passes, and the
    unchanged state when it does not. *)
Lemma updateWind_fired (delta : Q) (s : WindState) (g : RNG) :
  draws g (cursor g) < fluctuation s * delta * (5 # 10) ->
  exists st,
    result (updateWind delta s) g
    = mkWind (rem (direction s
                   + (draws g (S (cursor g)) * ((5 # 100) - - (5 # 100)) + - (5 # 100))
                     * fluctuation s) (Math_PI * 2))
             st (getWindSpeed st) (fluctuation s).
Proof.
  intro Hgate. apply ltb_lt in Hgate.
  unfold result, updateWind.
  run_rand. rewrite Hgate.
  match goal with |- context [if ?b then _ else _] => destruct b end.
  - destruct (stepStrength _ _) as [st g']. exists st. reflexivity.
  - eexists. reflexivity.
Qed.

Lemma updateWind_idle (delta : Q) (s : WindState) (g : RNG) :
  fluctuation s * delta * (5 # 10) <= draws g (cursor g) ->
  result (updateWind delta s) g = s.
Proof.
  intro Hgate. apply ltb_ge in Hgate.
  unfold result, updateWind.
  run_rand. rewrite Hgate. reflexivity.
Qed.

Lemma updateWind_canonical (delta : Q) (s : WindState) (g : RNG) :
  speed_canonical s -> speed_canonical (result (updateWind delta s) g).
Proof.
  intro Hs.
  destruct (Qlt_le_dec (draws g (cursor g)) (fluctuation s * delta * (5 # 10)))
    as [Hgate | Hgate].
  - destruct (updateWind_fired delta s g Hgate) as [st ->]. reflexivity.
  - rewrite updateWind_idle by exact Hgate. exact Hs.
Qed.

Lemma setDirection_canonical (d : Q) (s : WindState) :
  speed_canonical s -> speed_canonical (setDirection d s).
Proof. intro H; exact H. Qed.

Lemma setFluctuation_canonical (x : Q) (s : WindState) :
  speed_canonical s -> speed_canonical (setFluctuation x s).
Proof. intro H; exact H. Qed.

(** What [randomizeWind] stores: the strength comes from its second
    draw and the speed from its third. *)
Lemma randomizeWind_fields (s : WindState) (g : RNG) :
  let g1 := snd (Math_random g) in
  let g2 := snd (getRandomWindStrength g1) in
  strength (result (randomizeWind s) g) = result getRandomWindStrength g1
  /\ speedKnots (result (randomizeWind s) g)
     = getWindSpeed (result getRandomWindStrength g2).
Proof. split; reflexivity. Qed.

(** With draws in [0, 1), [randomizeWind] stores a direction in
    [0, 2 PI) and a fluctuation from 0.1 to 0.4 (a draw next to 1 can
    round to 0.4). *)
Lemma randomizeWind_ranges (s : WindState) (g : RNG) :
  fair g ->
  let w := result (randomizeWind s) g in
  (0 <= direction w /\ direction w < Math_PI * 2)
  /\ (1 # 10 <= fluctuation w /\ fluctuation w <= 4 # 10).
Proof.
  intro Hfair. cbv zeta. unfold result, randomizeWind, getRandomWindStrength.
  run_rand.
  destruct (Hfair (cursor g)) as [D0 D1].
  destruct (Hfair (S (S (S (cursor g))))) as [F0 F1].
  cbn [fst direction fluctuation]. unfold Math_PI. split; split; lra.
Qed.

(** C1.  [setStrength] and [updateWind] keep [speedKnots] equal to
    [getWindSpeed strength], but [randomizeWind] draws the strength it
    stores and the strength it takes the speed of separately: with the
    draws 0, 0, 0.999, 0 it stores strength Calm with 75 knots, the
    speed of Hurricane. *)
Theorem C1_randomizeWind_speed_not_canonical :
  let w := result (randomizeWind initialState)
                  (script [0; 0; 999 # 1000; 0]) in
  strength w = Calm /\ speedKnots w = 75 /\ getWindSpeed (strength w) = 2
  /\ ~ speed_canonical w.
Proof.
  cbv zeta. repeat split. intro H. vm_compute in H. discriminate H.
Qed.

(** C2.  The [%] of [updateWind] keeps the sign of its left operand:
    from the initial direction 0, a perturbation drawn at the low end
    (-0.05 * 0.2 = -0.01) leaves the stored direction at -0.01, below
    0 and so outside [0, 2 PI). *)
Theorem C2_updateWind_direction_negative :
  let w := result (updateWind (1 # 60) initialState)
                  (script [0; 0; 1 # 2]) in
  direction w == - (1 # 100) /\ direction w < 0.
Proof. cbv zeta. split; reflexivity. Qed.

(** The stored direction is always strictly between -2 PI and 2 PI, and
    inside [0, 2 PI) whenever the perturbed direction is not negative. *)
Lemma updateWind_direction_range (delta : Q) (s : WindState) (g : RNG) :
  let gate := draws g (cursor g) in
  let r := draws g (S (cursor g)) in
  let perturbed :=
    direction s + (r * ((5 # 100) - - (5 # 100)) + - (5 # 100)) * fluctuation s in
  gate < fluctuation s * delta * (5 # 10) ->
  let d := direction (result (updateWind delta s) g) in
  (- (Math_PI * 2) < d /\ d < Math_PI * 2)
  /\ (0 <= perturbed -> 0 <= d)
  /\ (perturbed <= 0 -> d <= 0).
Proof.
  cbv zeta. intro Hgate.
  destruct (updateWind_fired delta s g Hgate) as [st ->]. cbn [direction].
  assert (Hpi : 0 < Math_PI * 2) by reflexivity.
  split; [apply rem_bounds, Hpi|].
  split; intro H.
  - apply rem_nonneg; [exact Hpi | exact H].
  - apply rem_nonpos; [exact Hpi | exact H].
Qed.

End WindStoreFacts.

(* ================================================================= *)
(** ** The angle between heading and wind *)

Section AngleFacts.
Import JS WindModel.

Lemma getAngle_symmetric (a b : Q) :
  getAngleBetweenWindAndShip a b = getAngleBetweenWindAndShip b a.
Proof.
  unfold getAngleBetweenWindAndShip, Math_abs.
  rewrite (Qabs_Qminus (rem a (2 * Math_PI)) (rem b (2 * Math_PI))).
  reflexivity.
Qed.

(** Whatever the arguments, the result is above -2 PI and at most PI. *)
Lemma getAngle_upper (a b : Q) :
  - (2 * Math_PI) < getAngleBetweenWindAndShip a b
  /\ getAngleBetweenWindAndShip a b <= Math_PI.
Proof.
  assert (Hpi : 0 < 2 * Math_PI) by reflexivity.
  unfold getAngleBetweenWindAndShip, Math_abs, gtb.
  destruct (rem_bounds a _ Hpi) as [A1 A2].
  destruct (rem_bounds b _ Hpi) as [B1 B2].
  set (x := rem a (2 * Math_PI)) in *. set (y := rem b (2 * Math_PI)) in *.
  assert (Habs : Qabs (x - y) < 2 * Math_PI + 2 * Math_PI).
  { apply Qabs_Qlt_condition. split; lra. }
  pose proof (Qabs_nonneg (x - y)) as Hnn.
  destruct (ltb Math_PI (Qabs (x - y))) eqn:E.
  - apply ltb_lt in E. split; lra.
  - apply ltb_ge in E. split; lra.
Qed.

(** For two arguments of the same sign the result lies in [0, PI]. *)
Lemma getAngle_same_sign (a b : Q) :
  (0 <= a /\ 0 <= b) \/ (a <= 0 /\ b <= 0) ->
  0 <= getAngleBetweenWindAndShip a b /\ getAngleBetweenWindAndShip a b <= Math_PI.
Proof.
  intro Hs. split; [|apply getAngle_upper].
  assert (Hpi : 0 < 2 * Math_PI) by reflexivity.
  unfold getAngleBetweenWindAndShip, Math_abs, gtb.
  assert (Habs : Qabs (rem a (2 * Math_PI) - rem b (2 * Math_PI)) < 2 * Math_PI).
  { apply Qabs_Qlt_condition.
    destruct Hs as [[Ha Hb] | [Ha Hb]].
    - destruct (rem_nonneg a _ Hpi Ha), (rem_nonneg b _ Hpi Hb). split; lra.
    - destruct (rem_nonpos a _ Hpi Ha), (rem_nonpos b _ Hpi Hb). split; lra. }
  pose proof (Qabs_nonneg (rem a (2 * Math_PI) - rem b (2 * Math_PI))) as Hnn.
  destruct (ltb Math_PI _) eqn:E; lra.
Qed.

(** C4.  The function is symmetric, but its result is not always in
    [0, PI]: [%] leaves a negative heading negative, so for the
    heading -3.5 and the wind direction 3.5 the difference of the
    reduced angles is 7, above 2 PI, and the result 2 PI - 7 is
    negative. *)
(** The angle depends on the reduced heading and the reduced wind
    direction up to equality of rationals. *)
Lemma getAngle_reduced (a a' b b' : Q) :
  rem a (2 * Math_PI) == rem a' (2 * Math_PI) ->
  rem b (2 * Math_PI) == rem b' (2 * Math_PI) ->
  getAngleBetweenWindAndShip a b == getAngleBetweenWindAndShip a' b'.
Proof.
  intros Ea Eb. unfold getAngleBetweenWindAndShip, Math_abs, gtb.
  set (x := rem a (2 * Math_PI)) in *. set (x' := rem a' (2 * Math_PI)) in *.
  set (y := rem b (2 * Math_PI)) in *. set (y' := rem b' (2 * Math_PI)) in *.
  assert (E : Qabs (x - y) == Qabs (x' - y')) by (rewrite Ea, Eb; reflexivity).
  destruct (ltb Math_PI (Qabs (x - y))) eqn:L, (ltb Math_PI (Qabs (x' - y'))) eqn:L'.
  - rewrite E. reflexivity.
  - apply ltb_lt in L. apply ltb_ge in L'. lra.
  - apply ltb_ge in L. apply ltb_lt in L'. lra.
  - exact E.
Qed.

Theorem C4_getAngle_negative_result :
  getAngleBetweenWindAndShip (- (7 # 2)) (7 # 2)
  = getAngleBetweenWindAndShip (7 # 2) (- (7 # 2))
  /\ getAngleBetweenWindAndShip (- (7 # 2)) (7 # 2) == 2 * Math_PI - 7
  /\ getAngleBetweenWindAndShip (- (7 # 2)) (7 # 2) < 0.
Proof. repeat split. Qed.

End AngleFacts.

(* ================================================================= *)
(** ** The strength step of [updateWind] *)

Section StrengthStep.
Import JS WindModel WindStore.


Lemma at_index_indexOf (s : WindStrength) :
  at_index strengths (indexOf strengths s) = Some s.
Proof. destruct s; reflexivity. Qed.

(** The guards keep both array reads of the step inside the array. *)
Lemma strength_step_defined (s : WindStrength) :
  ((indexOf strengths s >? 0)%Z = true ->
     exists s', at_index strengths (indexOf strengths s - 1) = Some s')
  /\ ((indexOf strengths s <? Z.of_nat (length strengths) - 1)%Z = true ->
     exists s', at_index strengths (indexOf strengths s + 1) = Some s').
Proof.
  destruct s; split; intro H; try discriminate H; eexists; reflexivity.
Qed.







(** At the top of the scale the step up has nowhere to go and the code
    falls through to the resampling: from Hurricane, the draws 0.5 and 0
    give Calm, twelve categories away, where the comments of the step
    speak of a gradual change that stays within one category for draws
    below 0.7. *)
Lemma top_step_resamples :
  result (stepStrength Hurricane) (script [5 # 10; 0]) = Calm.
Proof. reflexivity. Qed.

End StrengthStep.

(* ================================================================= *)
(** ** The wave field *)

Section OceanFacts.
Import JS Ocean.

Lemma flat_map_length_const {A B} (f : A -> list B) (n : nat) (l : list A) :
  (forall a, length (f a) = n) -> length (flat_map f l) = (length l * n)%nat.
Proof.
  intro Hf. induction l as [|a l IH]; [reflexivity|].
  cbn [flat_map length]. rewrite length_app, Hf, IH. reflexivity.
Qed.

Lemma createOceanState_well_sized : well_sized createOceanState.
Proof. unfold well_sized, createOceanState. cbn [waveHeightMap]. apply repeat_length. Qed.

(** A tick rewrites every cell and keeps the size of the field. *)
Lemma updateWaveHeightMap_well_sized (M : HostMath) (p : WaveParams) (time : Q)
    (o : OceanState) :
  well_sized (updateWaveHeightMap M p time o).
Proof.
  unfold well_sized, updateWaveHeightMap. cbn [waveHeightMap].
  rewrite (flat_map_length_const _ (Z.to_nat WAVE_RESOLUTION)).
  - rewrite length_seq. reflexivity.
  - intro z. rewrite length_map, length_seq. reflexivity.
Qed.

Lemma waveIndex_range (x z : Q) :
  (0 <= waveIndex x z < WAVE_RESOLUTION * WAVE_RESOLUTION)%Z.
Proof.
  unfold waveIndex, Math_max, Math_min, WAVE_RESOLUTION. lia.
Qed.

(** Beyond the positive edge of the field the last column or row is
    read, below the negative edge the first. *)
Lemma waveIndex_outside (x z : Q) :
  50 <= x -> z < - 50 -> waveIndex x z = 39%Z.
Proof.
  intros Hx Hz. unfold waveIndex, Math_max, Math_min, Math_floor, WAVE_RESOLUTION, WAVE_SIZE.
  set (gx := (x + 100 / 2) / 100 * inject_Z 40).
  set (gz := (z + 100 / 2) / 100 * inject_Z 40).
  assert (Gx : (40 <= Qfloor gx)%Z).
  { assert (H : inject_Z 40 <= gx).
    { unfold gx, Qdiv. change (inject_Z 40) with 40.
      change (/ 100) with (1 # 100). change (/ 2) with (1 # 2). lra. }
    apply Qfloor_resp_le in H. rewrite Qfloor_Z in H. exact H. }
  assert (Gz : (Qfloor gz < 0)%Z).
  { assert (H : gz < inject_Z 0).
    { unfold gz, Qdiv. change (inject_Z 40) with 40. change (inject_Z 0) with 0.
      change (/ 100) with (1 # 100). change (/ 2) with (1 # 2). lra. }
    pose proof (Qfloor_le gz) as Hf.
    assert (Hlt : inject_Z (Qfloor gz) < inject_Z 0) by lra.
    rewrite <- Zlt_Qlt in Hlt. exact Hlt. }
  lia.
Qed.

(** The floor is the one integer within one of a number, from below. *)
Lemma Qfloor_unique (q : Q) (n : Z) :
  inject_Z n <= q -> q < inject_Z n + 1 -> Qfloor q = n.
Proof.
  intros Hl Hu.
  pose proof (Qfloor_le q) as A. pose proof (Qlt_floor q) as B.
  rewrite inject_Z_plus in B. change (inject_Z 1) with 1 in B.
  assert (H1 : inject_Z (Qfloor q) < inject_Z (n + 1)).
  { rewrite inject_Z_plus. change (inject_Z 1) with 1. lra. }
  assert (H2 : inject_Z n < inject_Z (Qfloor q + 1)).
  { rewrite inject_Z_plus. change (inject_Z 1) with 1. lra. }
  rewrite <- Zlt_Qlt in H1, H2. lia.
Qed.

(** The grid coordinate of a point inside the footprint of cell [i]. *)
Lemma grid_of_cell (i : nat) (w : Q) :
  inside_cell i w ->
  Math_floor ((w + WAVE_SIZE / 2) / WAVE_SIZE * inject_Z WAVE_RESOLUTION) = Z.of_nat i.
Proof.
  intros [Hl Hu]. unfold Math_floor, WAVE_SIZE, WAVE_RESOLUTION.
  rewrite inject_Z_plus in Hu. change (inject_Z 1) with 1 in Hu.
  change (inject_Z 40) with 40.
  set (n := inject_Z (Z.of_nat i)) in *.
  unfold Qdiv in *. change (/ 100) with (1 # 100). change (/ 2) with (1 # 2).
  change (/ 40) with (1 # 40) in Hl, Hu.
  apply Qfloor_unique; fold n; lra.
Qed.

(** The clamped grid coordinate along one axis: a column (or row) of the
    grid; the first one for every point at or beyond the negative edge
    of the field, the last one at or beyond the positive edge, and the
    cell's own for a point inside the footprint of a cell. *)
Lemma clamped_coordinate (w : Q) :
  let c := Math_max 0 (Math_min (WAVE_RESOLUTION - 1)
             (Math_floor ((w + WAVE_SIZE / 2) / WAVE_SIZE * inject_Z WAVE_RESOLUTION))) in
  (0 <= c < 40)%Z
  /\ (w <= - 50 -> c = 0%Z)
  /\ (50 <= w -> c = 39%Z)
  /\ (forall i : nat, (i < 40)%nat -> inside_cell i w -> c = Z.of_nat i).
Proof.
  cbv zeta. split; [|split; [|split]].
  - unfold Math_max, Math_min, WAVE_RESOLUTION. lia.
  - intro Hw. unfold Math_max, Math_min, Math_floor, WAVE_RESOLUTION, WAVE_SIZE.
    set (g := (w + 100 / 2) / 100 * inject_Z 40).
    assert (G : (Qfloor g <= 0)%Z).
    { assert (H : g <= inject_Z 0).
      { unfold g, Qdiv. change (inject_Z 40) with 40. change (inject_Z 0) with 0.
        change (/ 100) with (1 # 100). change (/ 2) with (1 # 2). lra. }
      apply Qfloor_resp_le in H. rewrite Qfloor_Z in H. exact H. }
    lia.
  - intro Hw. unfold Math_max, Math_min, Math_floor, WAVE_RESOLUTION, WAVE_SIZE.
    set (g := (w + 100 / 2) / 100 * inject_Z 40).
    assert (G : (40 <= Qfloor g)%Z).
    { assert (H : inject_Z 40 <= g).
      { unfold g, Qdiv. change (inject_Z 40) with 40.
        change (/ 100) with (1 # 100). change (/ 2) with (1 # 2). lra. }
      apply Qfloor_resp_le in H. rewrite Qfloor_Z in H. exact H. }
    lia.
  - intros i Hi Hin. rewrite (grid_of_cell i w Hin).
    unfold Math_max, Math_min, WAVE_RESOLUTION. lia.
Qed.

(** C7.  For every pair of coordinates the query reads a cell of the
    grid, at the column derived from x and the row derived from z, each
    clamped to the grid: the first column (row) for every point at or
    beyond the negative edge of the field, the last one at or beyond the
    positive edge, and for a point inside the footprint of a cell that
    cell's own.  So the query returns the stored value of that cell, and
    a ship querying the registered field gets that value; the ship's
    query answers 0 when no wave field is registered. *)
Theorem C7_getWaveHeight_defined (o : OceanState) (x z : Q) :
  well_sized o ->
  (exists (col row : Z) (h : Q),
      (0 <= col < 40)%Z /\ (0 <= row < 40)%Z
      /\ nth_error (waveHeightMap o) (Z.to_nat (row * 40 + col)) = Some h
      /\ Ocean.getWaveHeight o x z = Some h
      /\ Ship.getWaveHeight (Some (registered o)) x z = h
      /\ (x <= - 50 -> col = 0%Z) /\ (50 <= x -> col = 39%Z)
      /\ (z <= - 50 -> row = 0%Z) /\ (50 <= z -> row = 39%Z)
      /\ (forall i : nat, (i < 40)%nat -> inside_cell i x -> col = Z.of_nat i)
      /\ (forall j : nat, (j < 40)%nat -> inside_cell j z -> row = Z.of_nat j))
  /\ Ship.getWaveHeight None x z = 0.
Proof.
  intro Hsize. split; [|reflexivity].
  destruct (clamped_coordinate x) as [Cr [Clo [Chi Cin]]].
  destruct (clamped_coordinate z) as [Rr [Rlo [Rhi Rin]]].
  cbv zeta in Cr, Clo, Chi, Cin, Rr, Rlo, Rhi, Rin.
  unfold Ship.getWaveHeight, registered. cbn [Ship.api_getWaveHeight].
  unfold Ocean.getWaveHeight, waveIndex. cbv zeta.
  set (col := Math_max 0 (Math_min (WAVE_RESOLUTION - 1)
                (Math_floor ((x + WAVE_SIZE / 2) / WAVE_SIZE * inject_Z WAVE_RESOLUTION)))) in *.
  set (row := Math_max 0 (Math_min (WAVE_RESOLUTION - 1)
                (Math_floor ((z + WAVE_SIZE / 2) / WAVE_SIZE * inject_Z WAVE_RESOLUTION)))) in *.
  change WAVE_RESOLUTION with 40%Z.
  exists col, row.
  destruct (Z.ltb_spec (row * 40 + col) 0) as [Hneg | _]; [lia|].
  destruct (nth_error (waveHeightMap o) (Z.to_nat (row * 40 + col))) as [h|] eqn:E.
  - exists h. repeat split; try assumption; apply Cr || apply Rr.
  - exfalso. apply nth_error_None in E. unfold well_sized in Hsize.
    change (Z.to_nat (WAVE_RESOLUTION * WAVE_RESOLUTION)) with 1600%nat in Hsize. lia.
Qed.

(** Queries of the field whose cells hold their own index: a million
    units beyond the corner of positive x and negative z, the last
    column of the first row (cell 39); at the point (1, 1), the cell
    next to the middle of the field (row 20, column 20: cell 820). *)
Lemma C7_getWaveHeight_defined_witness :
  Ocean.getWaveHeight numbered 1000000 (- 1000000) = Some 39
  /\ Ship.getWaveHeight (Some (registered numbered)) 1 1 = 820.
Proof.
  split.
  - destruct (C7_getWaveHeight_defined numbered 1000000 (- 1000000) eq_refl)
      as [[col [row [h [_ [_ [Hn [Hq [_ [_ [Hc [Hr _]]]]]]]]]]] _].
    rewrite Hq, <- Hn, (Hc ltac:(vm_compute; discriminate)),
      (Hr ltac:(vm_compute; discriminate)).
    reflexivity.
  - destruct (C7_getWaveHeight_defined numbered 1 1 eq_refl)
      as [[col [row [h [_ [_ [Hn [_ [Hs [_ [_ [_ [_ [Hc Hr]]]]]]]]]]]]] _].
    rewrite Hs.
    rewrite (Hc 20%nat ltac:(lia) ltac:(split; vm_compute; discriminate)),
      (Hr 20%nat ltac:(lia) ltac:(split; vm_compute; discriminate)) in Hn.
    vm_compute in Hn. injection Hn as <-. reflexivity.
Defined.

End OceanFacts.

(* ================================================================= *)
(** ** Buoyancy and hull damage *)

Section BuoyancyFacts.
Import JS ShipTypes THREE Ship.

(** The force at a point has no horizontal part. *)
Lemma calculateBuoyancyForce_vertical stats damage ocean point shipPos shipMatrix :
  vx (calculateBuoyancyForce stats damage ocean point shipPos shipMatrix) = 0
  /\ vz (calculateBuoyancyForce stats damage ocean point shipPos shipMatrix) = 0.
Proof.
  unfold calculateBuoyancyForce. cbv zeta.
  destruct (ltb _ 0); split; reflexivity.
Qed.

Lemma buoyancy_fold_vertical stats damage ocean shipPos shipMatrix points :
  forall acc : Vector3 * Vector3,
    vx (fst acc) = 0 -> vz (fst acc) = 0 ->
    let total :=
      fold_left
        (fun (acc : Vector3 * Vector3) point =>
           let (totalBuoyancyForce, totalTorque) := acc in
           let force :=
             calculateBuoyancyForce stats damage ocean point shipPos shipMatrix in
           if gtb (lengthSq force) 0 then
             let worldPoint := applyMatrix4 point shipMatrix in
             let relPos := sub worldPoint shipPos in
             let torque := crossVectors relPos force in
             (add totalBuoyancyForce force, add totalTorque torque)
           else acc)
        points acc in
    vx (fst total) = 0 /\ vz (fst total) = 0.
Proof.
  induction points as [|point points IH]; intros acc Hx Hz; cbn [fold_left].
  - split; assumption.
  - apply IH.
    + destruct acc as [tf tt]. cbn [fst] in *.
      destruct (calculateBuoyancyForce_vertical stats damage ocean point shipPos shipMatrix)
        as [Fx _].
      destruct (gtb _ 0); cbn [fst add vx]; [|exact Hx].
      rewrite Hx, Fx. reflexivity.
    + destruct acc as [tf tt]. cbn [fst] in *.
      destruct (calculateBuoyancyForce_vertical stats damage ocean point shipPos shipMatrix)
        as [_ Fz].
      destruct (gtb _ 0); cbn [fst add vz]; [|exact Hz].
      rewrite Hz, Fz. reflexivity.
Qed.

(** The total buoyancy force points straight up. *)
Lemma buoyancy_vertical stats damage ocean points shipPos shipMatrix :
  vx (fst (buoyancy stats damage ocean points shipPos shipMatrix)) = 0
  /\ vz (fst (buoyancy stats damage ocean points shipPos shipMatrix)) = 0.
Proof.
  unfold buoyancy. apply buoyancy_fold_vertical; reflexivity.
Qed.

(** A submerged point of an intact hull is pushed up. *)
Lemma calculateBuoyancyForce_intact stats damage ocean point shipPos shipMatrix :
  0 < displacement stats -> 0 < hullIntegrity damage ->
  vy (applyMatrix4 point shipMatrix)
    < getWaveHeight ocean (vx (applyMatrix4 point shipMatrix))
                          (vz (applyMatrix4 point shipMatrix)) ->
  0 < vy (calculateBuoyancyForce stats damage ocean point shipPos shipMatrix).
Proof.
  intros Hd Hh Hsub. unfold calculateBuoyancyForce. cbv zeta.
  set (wp := applyMatrix4 point shipMatrix) in *.
  set (depth := getWaveHeight ocean (vx wp) (vz wp) - vy wp).
  assert (Hdepth : 0 < depth) by (unfold depth; lra).
  assert (E : ltb depth 0 = false) by (apply ltb_ge; lra).
  rewrite E. cbn [vy].
  assert (H1 : 0 < displacement stats / 1000).
  { apply Qlt_shift_div_l; [reflexivity | lra]. }
  assert (H2 : 0 < depth * 1) by lra.
  assert (H3 : 0 < depth * 1 * (displacement stats / 1000)).
  { apply Qmult_lt_0_compat; assumption. }
  assert (H4 : 0 < depth * 1 * (displacement stats / 1000) * (98 # 10)).
  { apply Qmult_lt_0_compat; [assumption | reflexivity]. }
  apply Qmult_lt_0_compat; assumption.
Qed.

(** C9.  With [hullIntegrity] 0 the force at every buoyancy point is
    the zero vector, submerged or not, and the hull is drawn deeper
    than with [hullIntegrity] 1. *)
Theorem C9_hull_zero_no_buoyancy
    (stats : ShipStats) (sunk intact : ShipDamage) (ocean : option OceanApi)
    (point shipPos : Vector3) (shipMatrix : Matrix4) :
  hullIntegrity sunk == 0 -> hullIntegrity intact == 1 ->
  let force := calculateBuoyancyForce stats sunk ocean point shipPos shipMatrix in
  (vx force = 0 /\ vy force == 0 /\ vz force = 0)
  /\ sinkDepth intact < sinkDepth sunk.
Proof.
  intros H0 H1. cbv zeta. split.
  - unfold calculateBuoyancyForce. cbv zeta.
    destruct (ltb _ 0); cbn [vx vy vz]; repeat split; try reflexivity.
    rewrite H0. ring.
  - unfold sinkDepth. rewrite H0, H1. reflexivity.
Qed.

(** A point 0.4 under a flat sea, for a Sloop: pushed up while the hull
    is intact, not at all once the hull is gone. *)
Lemma C9_hull_zero_no_buoyancy_witness :
  let stats := SHIP_STATS Sloop in
  let shipMatrix := setPosition (makeRotationY RefHost.host 0) (vec 0 0 0) in
  let point := vec 0 (- (4 # 10)) 0 in
  0 < vy (calculateBuoyancyForce stats (mkDamage 1 1 1 1) None point (vec 0 0 0) shipMatrix)
  /\ vy (calculateBuoyancyForce stats (mkDamage 0 1 1 1) None point (vec 0 0 0) shipMatrix) == 0
  /\ sinkDepth (mkDamage 1 1 1 1) < sinkDepth (mkDamage 0 1 1 1).
Proof.
  cbv zeta. split; [reflexivity|].
  destruct (C9_hull_zero_no_buoyancy (SHIP_STATS Sloop)
              (mkDamage 0 1 1 1) (mkDamage 1 1 1 1) None
              (vec 0 (- (4 # 10)) 0) (vec 0 0 0)
              (setPosition (makeRotationY RefHost.host 0) (vec 0 0 0)))
    as [[_ [Hy _]] Hs]; [reflexivity | reflexivity |].
  split; [exact Hy | exact Hs].
Defined.

End BuoyancyFacts.

(* ================================================================= *)
(** ** The frame callback: stabilisation, then integration *)

Section FrameFacts.
Import JS WindModel ShipTypes THREE Ship.
Variable M : HostMath.

(** What [integrate] leaves as it found it, and the heading it sets. *)
Lemma integrate_fields (props : ShipProps) (f : Frame) (group : Group) (s : ShipInstance) :
  let s' := integrate M props f group s in
  isInitialized s' = isInitialized s
  /\ initializationTime s' = initializationTime s
  /\ buoyancyPoints (physicsState s') = buoyancyPoints (physicsState s)
  /\ shipRotation (physicsState s')
     = turn (controls f) (damage props)
            (rotationSpeed (SHIP_STATS (shipClass props)) (delta f))
            (shipRotation (physicsState s))
  /\ exists group', shipRef s' = Some group'.
Proof.
  unfold integrate. cbv zeta.
  destruct (buoyancy _ _ _ _ _ _) as [tf tt].
  cbn [isInitialized initializationTime physicsState buoyancyPoints shipRotation shipRef].
  repeat split. eexists. reflexivity.
Qed.

(** The velocity [integrate] stores: thrust and drag, then buoyancy,
    then gravity, then the cap on the horizontal speed. *)
Lemma integrate_velocity (props : ShipProps) (f : Frame) (group : Group) (s : ShipInstance) :
  let stats := SHIP_STATS (shipClass props) in
  let ps := physicsState s in
  let shipMatrix := setPosition (makeRotationY M (shipRotation ps)) (position group) in
  let total :=
    fst (buoyancy stats (damage props) (scene_ocean f) (buoyancyPoints ps)
                  (position group) shipMatrix) in
  let pushed :=
    add (propel M stats (damage props) f ps)
        (multiplyScalar total ((1 # 100) * delta f)) in
  velocity (physicsState (integrate M props f group s))
  = capSpeed M (maxSpeed stats (getPointOfSailMultiplier (angleBetweenWindAndShip f ps)))
             (vec (vx pushed) (vy pushed - (5 # 100) * delta f) (vz pushed)).
Proof.
  cbv zeta. unfold integrate. cbv zeta.
  destruct (buoyancy _ _ _ _ _ _) as [tf tt].
  reflexivity.
Qed.

Lemma capSpeed_vertical (cap : Q) (v : Vector3) : vy (capSpeed M cap v) = vy v.
Proof. unfold capSpeed. cbv zeta. destruct (gtb _ cap); reflexivity. Qed.

(** Past the stabilisation, a frame is an integration step. *)
Lemma useFrame_active (props : ShipProps) (f : Frame) (group : Group) (s : ShipInstance) :
  shipRef s = Some group ->
  buoyancyPoints (physicsState s) <> [] ->
  isInitialized s = true ->
  useFrame M props f s = integrate M props f group s.
Proof.
  intros Href Hpts Hinit. unfold useFrame. rewrite Href.
  destruct (buoyancyPoints (physicsState s)) as [|p pts] eqn:E; [congruence|].
  cbn [List.length Nat.eqb]. rewrite Hinit. reflexivity.
Qed.





(** An integration step lets gravity and buoyancy act on the vertical
    velocity. *)
Lemma integrate_vertical (props : ShipProps) (f : Frame) (group : Group) (s : ShipInstance) :
  let stats := SHIP_STATS (shipClass props) in
  let ps := physicsState s in
  let shipMatrix := setPosition (makeRotationY M (shipRotation ps)) (position group) in
  let total :=
    fst (buoyancy stats (damage props) (scene_ocean f) (buoyancyPoints ps)
                  (position group) shipMatrix) in
  vy (velocity (physicsState (integrate M props f group s)))
  = vy (propel M stats (damage props) f ps) + vy total * ((1 # 100) * delta f)
    - (5 # 100) * delta f.
Proof.
  cbv zeta. rewrite integrate_velocity. cbv zeta.
  rewrite capSpeed_vertical. reflexivity.
Qed.

(** *** The heading *)

Lemma turn_step (c : Controls.ControlState) (damage : ShipDamage) (rs h : Q) :
  turn c damage rs h == h + rudder_sign c * (rs * rudderIntegrity damage).
Proof.
  unfold turn, rudder_sign. cbv zeta.
  destruct (Controls.right c), (Controls.left c); ring.
Qed.

Lemma useFrame_active_step (props : ShipProps) (f : Frame) (s : ShipInstance) :
  active s ->
  active (useFrame M props f s)
  /\ shipRotation (physicsState (useFrame M props f s))
     = turn (controls f) (damage props)
            (rotationSpeed (SHIP_STATS (shipClass props)) (delta f))
            (shipRotation (physicsState s)).
Proof.
  intros [Href [Hpts Hinit]].
  destruct (shipRef s) as [group|] eqn:Eg; [|congruence].
  rewrite (useFrame_active props f group s Eg Hpts Hinit).
  destruct (integrate_fields props f group s) as [Hi [_ [Hp [Hr [group' Hg']]]]].
  split; [|exact Hr].
  split; [rewrite Hg'; discriminate|]. split.
  - rewrite Hp. exact Hpts.
  - rewrite Hi. exact Hinit.
Qed.

(** The heading after [n] equal frames of an active ship. *)
Lemma heading_run (props : ShipProps) (f : Frame) (n : nat) :
  forall s : ShipInstance,
    active s ->
    active (run M props (repeat f n) s)
    /\ shipRotation (physicsState (run M props (repeat f n) s))
       == shipRotation (physicsState s)
          + inject_Z (Z.of_nat n)
            * (rudder_sign (controls f)
               * (rotationSpeed (SHIP_STATS (shipClass props)) (delta f)
                  * rudderIntegrity (damage props))).
Proof.
  induction n as [|n IH]; intros s Hact; cbn [repeat run].
  - split; [exact Hact|]. change (inject_Z (Z.of_nat 0)) with 0. ring.
  - destruct (useFrame_active_step props f s Hact) as [Hact' Hr].
    destruct (IH _ Hact') as [A B]. split; [exact A|].
    rewrite B, Hr, turn_step, Nat2Z.inj_succ.
    unfold Z.succ. rewrite inject_Z_plus. change (inject_Z 1) with 1. ring.
Qed.

(** A positive step, taken often enough, passes any bound. *)
Lemma steps_pass (h step B : Q) :
  0 < step -> exists n : nat, B < h + inject_Z (Z.of_nat n) * step.
Proof.
  intro Hstep.
  set (c := Z.max 0 (Qceiling ((B - h) / step))).
  exists (Z.to_nat (c + 1)).
  rewrite Z2Nat.id by (unfold c; lia).
  rewrite inject_Z_plus. change (inject_Z 1) with 1.
  assert (Hc : (B - h) / step <= inject_Z c).
  { apply Qle_trans with (inject_Z (Qceiling ((B - h) / step))).
    - apply Qle_ceiling.
    - rewrite <- Zle_Qle. unfold c. lia. }
  assert (Hm : (B - h) / step * step <= inject_Z c * step).
  { apply Qmult_le_compat_r; lra. }
  assert (E : (B - h) / step * step == B - h) by (field; lra).
  lra.
Qed.

End FrameFacts.

Section HeadingFacts.
Import JS WindModel ShipTypes THREE Ship.
Variable M : HostMath.

(** C10.  A turning frame of an active ship sets the heading to the old
    heading plus (left) or minus (right) [rotationSpeed *
    rudderIntegrity], with no reduction modulo 2 PI: after [n] equal
    frames the heading is the start plus [n] such steps, so it passes
    every bound when the step is positive; and it is this heading,
    as it stands, that the wind angle is computed from. *)
Theorem C10_heading_not_wrapped
    (props : ShipProps) (f : Frame) (s : ShipInstance) (n : nat) :
  active s ->
  let c := controls f in
  let step :=
    rotationSpeed (SHIP_STATS (shipClass props)) (delta f)
    * rudderIntegrity (damage props) in
  let after k := physicsState (run M props (repeat f k) s) in
  (Controls.left c = true -> Controls.right c = false ->
     shipRotation (after 1%nat) = shipRotation (physicsState s) + step)
  /\ (Controls.right c = true ->
     shipRotation (after 1%nat) = shipRotation (physicsState s) - step)
  /\ shipRotation (after n)
     == shipRotation (physicsState s) + inject_Z (Z.of_nat n) * (rudder_sign c * step)
  /\ (0 < step -> Controls.left c = true -> Controls.right c = false ->
      forall B, exists k, B < shipRotation (after k))
  /\ (0 < step -> Controls.right c = true ->
      forall B, exists k, shipRotation (after k) < B)
  /\ angleBetweenWindAndShip f (after n)
     = getAngleBetweenWindAndShip (shipRotation (after n)) (direction (wind f)).
Proof.
  intro Hact. cbv zeta.
  destruct (useFrame_active_step M props f s Hact) as [_ Hr].
  split; [|split; [|split; [|split; [|split]]]].
  - intros Hl Hrt. cbn [repeat run]. rewrite Hr. unfold turn. cbv zeta.
    rewrite Hl, Hrt. reflexivity.
  - intros Hrt. cbn [repeat run]. rewrite Hr. unfold turn. cbv zeta.
    rewrite Hrt. reflexivity.
  - apply heading_run, Hact.
  - intros Hstep Hl Hrt B.
    destruct (steps_pass (shipRotation (physicsState s)) _ B Hstep) as [k Hk].
    exists k. destruct (heading_run M props f k s Hact) as [_ E].
    rewrite E. unfold rudder_sign. rewrite Hl, Hrt. lra.
  - intros Hstep Hrt B.
    destruct (steps_pass (- shipRotation (physicsState s)) _ (- B) Hstep) as [k Hk].
    exists k. destruct (heading_run M props f k s Hact) as [_ E].
    rewrite E. unfold rudder_sign. rewrite Hrt. lra.
  - reflexivity.
Qed.

End HeadingFacts.

(* ================================================================= *)
(** ** What damage does to the horizontal motion *)

Section DamageFacts.
Import JS WindModel ShipTypes THREE Ship.
Variable M : HostMath.









End DamageFacts.


(* ================================================================= *)
(** ** Thrust, drag and the cruising speed *)

Section CruisingFacts.
Import JS WindModel ShipTypes THREE Ship.
Variable M : HostMath.



(** The thrust is the intact ship's thrust times the sail efficiency. *)
Lemma finalAcceleration_scales (stats : ShipStats) (d : ShipDamage) (f : Frame)
    (ps : ShipPhysicsState) :
  finalAcceleration stats d f ps
  == sailEfficiency d * finalAcceleration stats createDefaultShipDamage f ps.
Proof.
  unfold finalAcceleration, sailEfficiency, createDefaultShipDamage.
  cbv zeta. cbn [sailIntegrity mastIntegrity]. ring.
Qed.

(** Drag keeps between 93.1 % and 99 % of the velocity. *)
Lemma finalDrag_bounds (f : Frame) (ps : ShipPhysicsState) :
  931 # 1000 <= finalDrag f ps /\ finalDrag f ps <= 99 # 100.
Proof.
  unfold finalDrag, Math_minQ. cbv zeta.
  set (a := angleBetweenWindAndShip f ps).
  destruct (ltb a (Math_PI / 2)) eqn:E.
  - apply ltb_lt in E.
    assert (H : a / (Math_PI / 2) < 1).
    { apply Qlt_shift_div_r; [reflexivity | lra]. }
    destruct (leb _ (99 # 100)) eqn:L.
    + apply leb_le in L. split; lra.
    + split; lra.
  - destruct (leb _ (99 # 100)) eqn:L; split; lra.
Qed.


(** Sailing ahead: the velocity gains the sail efficiency times the
    intact ship's thrust, and drag takes its share of the sum. *)
Lemma propel_ahead (stats : ShipStats) (d : ShipDamage) (f : Frame)
    (ps : ShipPhysicsState) :
  ahead f ->
  vx (propel M stats d f ps)
  == (vx (velocity ps) + sailEfficiency d * vx (unitThrust M stats f ps)) * finalDrag f ps
  /\ vz (propel M stats d f ps)
     == (vz (velocity ps) + sailEfficiency d * vz (unitThrust M stats f ps)) * finalDrag f ps.
Proof.
  intros [Hf Hb].
  unfold propel, unitThrust. cbv zeta. rewrite Hf, Hb.
  cbn [vx vz add multiplyScalar].
  rewrite (finalAcceleration_scales stats d f ps).
  assert (Hw : windEffect d f ps == sailEfficiency d * windEffect createDefaultShipDamage f ps).
  { unfold windEffect, sailEfficiency, createDefaultShipDamage.
    cbv zeta. cbn [sailIntegrity mastIntegrity]. ring. }
  rewrite Hw. split; ring.
Qed.

Lemma capSpeed_unbound (cap : Q) (v : Vector3) :
  gtb (THREE.length M (vec (vx v) 0 (vz v))) cap = false -> capSpeed M cap v = v.
Proof. intro H. unfold capSpeed. cbv zeta. rewrite H. reflexivity. Qed.

(** Below the cap, the horizontal velocity a frame leaves is what
    thrust and drag made of it. *)
Lemma integrate_below_cap (props : ShipProps) (f : Frame) (group : Group)
    (s : ShipInstance) :
  capBinds M props f group s = false ->
  vx (velocity (physicsState (integrate M props f group s)))
  == vx (propel M (SHIP_STATS (shipClass props)) (damage props) f (physicsState s))
  /\ vz (velocity (physicsState (integrate M props f group s)))
     == vz (propel M (SHIP_STATS (shipClass props)) (damage props) f (physicsState s)).
Proof.
  intro Hcap. rewrite integrate_velocity. cbv zeta.
  unfold capBinds, beforeCap in Hcap. cbv zeta in Hcap.
  rewrite (capSpeed_unbound _ _ Hcap).
  cbn [vx vz add multiplyScalar].
  destruct (buoyancy_vertical (SHIP_STATS (shipClass props)) (damage props) (scene_ocean f)
              (buoyancyPoints (physicsState s)) (position group)
              (setPosition (makeRotationY M (shipRotation (physicsState s))) (position group)))
    as [Tx Tz].
  rewrite Tx, Tz. split; ring.
Qed.


End CruisingFacts.

(* ================================================================= *)
(** ** The run to the terminal speed *)

Section TerminalFacts.
Import JS WindModel ShipTypes THREE Ship.
Variable M : HostMath.
























End TerminalFacts.

(* ================================================================= *)
(** ** Damage and speed; values from outside *)

Section DamageClaims.
Import JS WindModel ShipTypes THREE Ship.
Variable M : HostMath.



(** What an integration step does to the hull mesh. *)
Lemma integrate_hull (props : ShipProps) (f : Frame) (group : Group) (s : ShipInstance) :
  hullRef s <> None ->
  hullRef (integrate M props f group s) = Some (- sinkDepth (damage props)).
Proof.
  intro H. unfold integrate. cbv zeta.
  destruct (buoyancy _ _ _ _ _ _) as [tf tt]. cbn [hullRef].
  destruct (hullRef s); [reflexivity | congruence].
Qed.

(** C3 (as the code has it).  Nothing is clamped on the way in or at
    the point of use.  A fluctuation is stored as it is given, and
    [updateWind] works with the stored value: it is the gate of the
    update and the scale of the direction change.  A frame of an active
    ship uses the damage it is given as it stands: the heading step is
    [rotationSpeed] times the rudder integrity, the hull is set lower by
    one less the hull integrity times 0.4, and thrust and drift are the
    intact ship's times the product of sail and mast integrity.  A wind
    direction is stored as it is given; the wind angle the frame works
    with is computed from heading and wind direction reduced modulo
    2 PI, which for angles that are not negative is a reduction to
    [0, 2 PI) and gives an angle in [0, PI]. *)
Theorem C3_values_used_as_given
    (x delta : Q) (w : WindState) (g : RNG)
    (props : ShipProps) (f : Frame) (group : Group) (s : ShipInstance) :
  let stats := SHIP_STATS (shipClass props) in
  let d := damage props in
  let ps := physicsState s in
  let s' := useFrame M props f s in
  let heading := shipRotation ps in
  let windDirection := direction (wind f) in
  (fluctuation (WindStore.setFluctuation x w) = x
   /\ (draws g (cursor g) < x * delta * (5 # 10) ->
       direction (result (WindStore.updateWind delta (WindStore.setFluctuation x w)) g)
       = rem (direction w
              + (draws g (S (cursor g)) * ((5 # 100) - - (5 # 100)) + - (5 # 100)) * x)
             (Math_PI * 2))
   /\ (x * delta * (5 # 10) <= draws g (cursor g) ->
       result (WindStore.updateWind delta (WindStore.setFluctuation x w)) g
       = WindStore.setFluctuation x w))
  /\ (shipRef s = Some group -> buoyancyPoints ps <> [] -> isInitialized s = true ->
      (Controls.left (controls f) = true -> Controls.right (controls f) = false ->
       shipRotation (physicsState s')
       = heading + rotationSpeed stats (Ship.delta f) * rudderIntegrity d)
      /\ (hullRef s <> None ->
          hullRef s' = Some (- ((1 - hullIntegrity d) * (4 # 10))))
      /\ (ahead f -> capBinds M props f group s = false ->
          vx (velocity (physicsState s'))
          == (vx (velocity ps)
              + sailIntegrity d * mastIntegrity d * vx (unitThrust M stats f ps))
             * finalDrag f ps
          /\ vz (velocity (physicsState s'))
             == (vz (velocity ps)
                 + sailIntegrity d * mastIntegrity d * vz (unitThrust M stats f ps))
                * finalDrag f ps))
  /\ direction (WindStore.setDirection x w) = x
  /\ (0 <= heading -> 0 <= windDirection ->
      (0 <= rem heading (2 * Math_PI) /\ rem heading (2 * Math_PI) < 2 * Math_PI)
      /\ (0 <= rem windDirection (2 * Math_PI) /\ rem windDirection (2 * Math_PI) < 2 * Math_PI)
      /\ angleBetweenWindAndShip f ps
         == getAngleBetweenWindAndShip (rem heading (2 * Math_PI))
                                       (rem windDirection (2 * Math_PI))
      /\ (0 <= angleBetweenWindAndShip f ps /\ angleBetweenWindAndShip f ps <= Math_PI)).
Proof.
  cbv zeta. split; [|split; [|split]].
  - split; [reflexivity|]. split.
    + intro Hgate.
      destruct (updateWind_fired delta (WindStore.setFluctuation x w) g Hgate) as [st E].
      rewrite E. reflexivity.
    + intro Hgate. apply updateWind_idle. exact Hgate.
  - intros Href Hpts Hinit.
    rewrite (useFrame_active M props f group s Href Hpts Hinit).
    split; [|split].
    + intros Hl Hr.
      destruct (integrate_fields M props f group s) as [_ [_ [_ [Hrot _]]]].
      rewrite Hrot. unfold turn. cbv zeta. rewrite Hl, Hr. reflexivity.
    + intro Hh. rewrite (integrate_hull props f group s Hh). reflexivity.
    + intros Hahead Hcap.
      destruct (integrate_below_cap M props f group s Hcap) as [Ix Iz].
      destruct (propel_ahead M (SHIP_STATS (shipClass props)) (damage props) f
                  (physicsState s) Hahead) as [Px Pz].
      rewrite Ix, Px, Iz, Pz. unfold sailEfficiency. split; reflexivity.
  - reflexivity.
  - intros Hh Hw.
    assert (Hpi : 0 < 2 * Math_PI) by reflexivity.
    split; [exact (rem_nonneg _ _ Hpi Hh)|].
    split; [exact (rem_nonneg _ _ Hpi Hw)|].
    split.
    + unfold angleBetweenWindAndShip.
      apply getAngle_reduced; symmetry; apply rem_rem; assumption.
    + unfold angleBetweenWindAndShip. apply getAngle_same_sign. left. split; assumption.
Qed.

End DamageClaims.

(* ================================================================= *)
(** ** The scenario, run *)

Section ScenarioFacts.
Import JS WindModel ShipTypes THREE Ship.

Lemma settled_active : active Scenario.settled.
Proof. split; [discriminate|]. split; [discriminate | reflexivity]. Qed.


(** The wind is 2 rad off the heading: the optimal point of sail. *)
Lemma sail_optimal :
  getPointOfSailMultiplier
    (angleBetweenWindAndShip Scenario.sail (physicsState Scenario.settled)) = 1.
Proof. reflexivity. Qed.




End ScenarioFacts.

(** The settled Sloop, held to port: its heading passes 2 PI. *)
Lemma C10_heading_not_wrapped_witness :
  exists k, 2 * JS.Math_PI
            < Ship.shipRotation
                (Ship.physicsState
                   (Ship.run RefHost.host (Scenario.sloop ShipTypes.createDefaultShipDamage)
                             (repeat Scenario.port k) Scenario.settled)).
Proof.
  refine (proj1 (proj2 (proj2 (proj2
    (C10_heading_not_wrapped RefHost.host _ _ _ 0%nat settled_active)))) _ _ _
    (2 * JS.Math_PI)); reflexivity.
Defined.



(** A fluctuation of 5 in the store, and the settled Sloop with hull
    integrity 0.5, sail integrity 2 and rudder integrity 3, held to port
    under sail. *)
Lemma C3_values_used_as_given_witness :
  let props := Scenario.sloop (ShipTypes.mkDamage (1 # 2) 2 1 3) in
  let s' := Ship.useFrame RefHost.host props Scenario.port Scenario.settled in
  WindModel.direction
    (result (WindStore.updateWind (1 # 10) (WindStore.setFluctuation 5 WindStore.initialState))
            (JS.script [2 # 10; 9 # 10; 1 # 2]))
  = JS.rem (0 + ((9 # 10) * ((5 # 100) - - (5 # 100)) + - (5 # 100)) * 5) (JS.Math_PI * 2)
  /\ Ship.shipRotation (Ship.physicsState s')
     = 0 + Ship.rotationSpeed (ShipTypes.SHIP_STATS ShipTypes.Sloop) (1 # 60) * 3
  /\ Ship.hullRef s' = Some (- ((1 - (1 # 2)) * (4 # 10)))
  /\ THREE.vx (Ship.velocity (Ship.physicsState s'))
     == (THREE.vx (Ship.velocity (Ship.physicsState Scenario.settled))
         + 2 * 1 * THREE.vx (unitThrust RefHost.host (ShipTypes.SHIP_STATS ShipTypes.Sloop)
                                        Scenario.port (Ship.physicsState Scenario.settled)))
        * Ship.finalDrag Scenario.port (Ship.physicsState Scenario.settled)
  /\ (0 <= Ship.angleBetweenWindAndShip Scenario.port (Ship.physicsState Scenario.settled)
      /\ Ship.angleBetweenWindAndShip Scenario.port (Ship.physicsState Scenario.settled)
         <= JS.Math_PI).
Proof.
  cbv zeta.
  epose proof (C3_values_used_as_given RefHost.host 5 (1 # 10) WindStore.initialState
                 (JS.script [2 # 10; 9 # 10; 1 # 2])
                 (Scenario.sloop (ShipTypes.mkDamage (1 # 2) 2 1 3))
                 Scenario.port _ Scenario.settled) as H.
  cbv zeta in H. destruct H as [[_ [Hfire _]] [Hframe [_ Hangle]]].
  destruct Hframe as [Hturn [Hhull Hsail]];
    [vm_compute; reflexivity | discriminate | reflexivity |].
  split; [apply Hfire; reflexivity|].
  split; [apply Hturn; reflexivity|].
  split; [apply Hhull; discriminate|].
  split; [exact (proj1 (Hsail (conj eq_refl eq_refl) ltac:(vm_compute; reflexivity)))|].
  apply Hangle; vm_compute; discriminate.
Defined.

(** C3 as stated fails: a fluctuation of 5 is stored and used as 5 (with
    delta 0.1 and a first draw of 0.2 the wind changes, which a
    fluctuation clamped to 1 would not allow); and the first frame of the
    settled Sloop under sail uses a sail integrity of 2 as 2 (twice the
    velocity, four times the squared speed, of the intact ship), a rudder
    integrity of 2 as 2 (twice the heading step) and a hull integrity of
    2 as 2 (the hull is lifted by 0.4 instead of sunk). *)
Lemma C3_out_of_range_values_used :
  let gusty := WindStore.setFluctuation 5 WindStore.initialState in
  let clamped := WindStore.setFluctuation 1 WindStore.initialState in
  let g := JS.script [2 # 10; 9 # 10; 1 # 2] in
  let frame d f := Ship.useFrame RefHost.host (Scenario.sloop d) f Scenario.settled in
  let intact := ShipTypes.createDefaultShipDamage in
  (WindModel.fluctuation gusty = 5
   /\ WindModel.direction (result (WindStore.updateWind (1 # 10) gusty) g) == 2 # 10
   /\ result (WindStore.updateWind (1 # 10) clamped) g = clamped)
  /\ (0 < horizontalSpeedSq (frame intact Scenario.sail)
      /\ horizontalSpeedSq (frame (ShipTypes.mkDamage 1 2 1 1) Scenario.sail)
         == 4 * horizontalSpeedSq (frame intact Scenario.sail))
  /\ (0 < Ship.shipRotation (Ship.physicsState (frame intact Scenario.port))
      /\ Ship.shipRotation (Ship.physicsState (frame (ShipTypes.mkDamage 1 1 1 2) Scenario.port))
         == 2 * Ship.shipRotation (Ship.physicsState (frame intact Scenario.port)))
  /\ (exists y, Ship.hullRef (frame (ShipTypes.mkDamage 2 1 1 1) Scenario.sail) = Some y
                /\ y == 4 # 10).
Proof.
  cbv zeta. split; [repeat split|]. split; [|split].
  - split; vm_compute; reflexivity.
  - split; vm_compute; reflexivity.
  - eexists. split; [vm_compute; reflexivity | reflexivity].
Qed.


(* ================================================================= *)
(** * Further properties of the code *)

(** ** The wind tables and the point of sail *)

Section WindTables.
Import JS WindModel WindStore.

(** X1.  The speed table is strictly increasing along the scale: a
    category further up the scale has the higher speed, and only then. *)
Theorem X1_getWindSpeed_increasing (a b : WindStrength) :
  (indexOf strengths a < indexOf strengths b)%Z <-> getWindSpeed a < getWindSpeed b.
Proof.
  destruct a, b; split; intro H; try reflexivity; vm_compute in H; discriminate H.
Qed.

(** X2.  The wind factor is strictly increasing along the scale too,
    and stays in (0, 1], reaching 1 at Hurricane only. *)
Theorem X2_getWindFactor_increasing (a b : WindStrength) :
  ((indexOf strengths a < indexOf strengths b)%Z <-> getWindFactor a < getWindFactor b)
  /\ 0 < getWindFactor a /\ getWindFactor a <= 1
  /\ (getWindFactor a == 1 <-> a = Hurricane).
Proof.
  split; [|split; [|split; [|split]]].
  - destruct a, b; split; intro H; try reflexivity; vm_compute in H; discriminate H.
  - destruct a; reflexivity.
  - destruct a; vm_compute; discriminate.
  - destruct a; intro H; try reflexivity; vm_compute in H; discriminate H.
  - intros ->. reflexivity.
Qed.

(** X3.  The multiplier lies between 0.1 and 1, and it is 1 exactly
    when the angle, in degrees, is above 90 and at most 120. *)
Theorem X3_pointOfSail_optimal_band (a : Q) :
  let angleDegrees := a * (180 / Math_PI) in
  (1 # 10 <= getPointOfSailMultiplier a /\ getPointOfSailMultiplier a <= 1)
  /\ (getPointOfSailMultiplier a = 1 <-> 90 < angleDegrees /\ angleDegrees <= 120).
Proof.
  cbv zeta. unfold getPointOfSailMultiplier. cbv zeta.
  set (d := a * (180 / Math_PI)).
  destruct (leb d 30) eqn:E30.
  { apply leb_le in E30. split; [split; vm_compute; discriminate|].
    split; [discriminate | intros [H _]; lra]. }
  apply leb_gt in E30.
  destruct (leb d 60) eqn:E60.
  { apply leb_le in E60. split; [split; vm_compute; discriminate|].
    split; [discriminate | intros [H _]; lra]. }
  apply leb_gt in E60.
  destruct (leb d 90) eqn:E90.
  { apply leb_le in E90. split; [split; vm_compute; discriminate|].
    split; [discriminate | intros [H _]; lra]. }
  apply leb_gt in E90.
  destruct (leb d 120) eqn:E120.
  { apply leb_le in E120. split; [split; vm_compute; discriminate|].
    split; [intros _; split; assumption | reflexivity]. }
  apply leb_gt in E120.
  destruct (leb d 150) eqn:E150.
  { split; [split; vm_compute; discriminate|].
    split; [discriminate | intros [_ H]; lra]. }
  split; [split; vm_compute; discriminate|].
  split; [discriminate | intros [_ H]; lra].
Qed.

End WindTables.

(** ** Full turns *)

Section FullTurns.
Import JS WindModel.

(** X4.  For a heading that is not negative, full turns do not matter:
    the heading after [n] more turns to port gives the same angle to the
    wind; and a heading equal to the wind direction gives the angle 0. *)
Theorem X4_getAngle_full_turns (heading wind : Q) (n : nat) :
  0 <= heading ->
  getAngleBetweenWindAndShip (heading + inject_Z (Z.of_nat n) * (2 * Math_PI)) wind
  == getAngleBetweenWindAndShip heading wind
  /\ getAngleBetweenWindAndShip heading heading == 0.
Proof.
  intro Hh. split.
  - apply getAngle_reduced; [|reflexivity].
    induction n as [|n IH].
    + change (inject_Z (Z.of_nat 0)) with 0.
      apply rem_equal; [reflexivity | lra | ring].
    + rewrite <- IH.
      assert (Hpi : 0 < 2 * Math_PI) by reflexivity.
      assert (Hn : 0 <= inject_Z (Z.of_nat n)).
      { change 0 with (inject_Z 0). rewrite <- Zle_Qle. lia. }
      assert (Hpos : 0 <= heading + inject_Z (Z.of_nat n) * (2 * Math_PI)).
      { assert (0 <= inject_Z (Z.of_nat n) * (2 * Math_PI))
          by (apply Qmult_le_0_compat; lra). lra. }
      rewrite <- (rem_add_period _ _ Hpi Hpos).
      assert (E : heading + inject_Z (Z.of_nat (S n)) * (2 * Math_PI)
                  == heading + inject_Z (Z.of_nat n) * (2 * Math_PI) + 2 * Math_PI).
      { rewrite Nat2Z.inj_succ. unfold Z.succ. rewrite inject_Z_plus.
        change (inject_Z 1) with 1. ring. }
      apply rem_equal; [exact Hpi | | exact E].
      assert (0 <= inject_Z (Z.of_nat (S n)) * (2 * Math_PI)).
      { apply Qmult_le_0_compat; [|lra].
        change 0 with (inject_Z 0). rewrite <- Zle_Qle. lia. }
      lra.
  - unfold getAngleBetweenWindAndShip, Math_abs, gtb.
    set (x := rem heading (2 * Math_PI)).
    assert (E : Qabs (x - x) == 0).
    { assert (Z : x - x == 0) by ring. rewrite Z. reflexivity. }
    destruct (ltb Math_PI (Qabs (x - x))) eqn:L.
    + apply ltb_lt in L. rewrite E in L. vm_compute in L. discriminate L.
    + exact E.
Qed.

(** Three turns to port from heading 1, wind from 2. *)
Lemma X4_getAngle_full_turns_witness :
  getAngleBetweenWindAndShip (1 + inject_Z (Z.of_nat 3) * (2 * Math_PI)) 2
  == getAngleBetweenWindAndShip 1 2.
Proof.
  apply (proj1 (X4_getAngle_full_turns 1 2 3 ltac:(vm_compute; discriminate))).
Defined.

End FullTurns.

(** ** The wind store under its draws *)

(** A script of draws in [0, 1) is a fair source. *)
Lemma script_fair (l : list Q) :
  Forall (fun r => 0 <= r /\ r < 1) l -> JS.fair (JS.script l).
Proof.
  intros Hall n. unfold JS.script. cbn [JS.draws]. revert n.
  induction Hall as [|r l Hr _ IH]; intros [|n]; cbn [nth];
    try (split; [apply Qle_refl | reflexivity]).
  - exact Hr.
  - apply IH.
Qed.

Ltac fair_script :=
  apply script_fair;
  repeat (apply Forall_cons; [split; [vm_compute; discriminate | reflexivity]|]);
  apply Forall_nil.

Section WindDraws.
Import JS WindModel WindStore.





(** X6.  With a draw in [0, 1) and [min <= max], [randomInRange] gives a
    number from [min] to [max], both included (a draw next to 1 can
    round to [max]), and uses one draw. *)
Theorem X6_randomInRange_bounds (min max : Q) (g : RNG) :
  fair g -> min <= max ->
  min <= result (randomInRange min max) g
  /\ result (randomInRange min max) g <= max
  /\ snd (randomInRange min max g) = skip 1 g.
Proof.
  intros Hfair Hle. destruct (Hfair (cursor g)) as [H0 H1].
  unfold result, randomInRange. run_rand. cbn [fst snd].
  set (r := draws g (cursor g)) in *.
  assert (A : 0 <= r * (max - min)) by (apply Qmult_le_0_compat; lra).
  assert (B : r * (max - min) <= 1 * (max - min)) by (apply Qmult_le_compat_r; lra).
  split; [lra|]. split; [lra|]. reflexivity.
Qed.

Lemma X6_randomInRange_bounds_witness :
  1 # 10 <= result (randomInRange (1 # 10) (4 # 10)) (script [1 # 2])
  /\ result (randomInRange (1 # 10) (4 # 10)) (script [1 # 2]) <= 4 # 10.
Proof.
  destruct (X6_randomInRange_bounds (1 # 10) (4 # 10) (script [1 # 2])
              ltac:(fair_script) ltac:(vm_compute; discriminate)) as [A [B _]].
  split; [exact A | exact B].
Defined.

(** X7.  With draws in [0, 1), [randomizeWind] stores a direction in
    [0, 2 PI) and a fluctuation from 0.1 to 0.4, both included, and
    uses exactly four draws. *)
Theorem X7_randomizeWind_ranges (s : WindState) (g : RNG) :
  fair g ->
  let w := result (randomizeWind s) g in
  (0 <= direction w /\ direction w < Math_PI * 2)
  /\ (1 # 10 <= fluctuation w /\ fluctuation w <= 4 # 10)
  /\ snd (randomizeWind s g) = skip 4 g.
Proof.
  intro Hfair. cbv zeta.
  destruct (randomizeWind_ranges s g Hfair) as [A B].
  split; [exact A|]. split; [exact B|]. reflexivity.
Qed.

Lemma X7_randomizeWind_ranges_witness :
  let w := result (randomizeWind initialState) (script [1 # 2; 1 # 2; 1 # 2; 1 # 2]) in
  (0 <= direction w /\ direction w < Math_PI * 2)
  /\ (1 # 10 <= fluctuation w /\ fluctuation w <= 4 # 10).
Proof.
  cbv zeta.
  destruct (X7_randomizeWind_ranges initialState (script [1 # 2; 1 # 2; 1 # 2; 1 # 2])
              ltac:(fair_script)) as [A [B _]].
  split; [exact A | exact B].
Defined.

End WindDraws.

Section WindRuns.
Import JS WindModel WindStore.

Lemma applyAction_canonical (a : WindAction) (w : WindState) (g : RNG) :
  speed_canonical w -> speed_canonical (result (applyAction a w) g).
Proof.
  intro Hw. destruct a as [d | s | x | delta | isStorm]; cbn [applyAction].
  - exact Hw.
  - reflexivity.
  - exact Hw.
  - apply updateWind_canonical, Hw.
  - destruct isStorm; reflexivity.
Qed.

(** X8.  Whatever is done to the wind store from its initial state, in
    any order and with any draws, short of [randomizeWind] (setting
    direction, strength or fluctuation, frames of [updateWind], toggles
    of the weather panel), the speed stays the one of the strength. *)
Theorem X8_speed_canonical_reachable (actions : list WindAction) (g : RNG) :
  speed_canonical (result (applyActions actions initialState) g).
Proof.
  assert (H : forall w g, speed_canonical w ->
                speed_canonical (result (applyActions actions w) g)).
  { induction actions as [|a actions IH]; intros w g' Hw; cbn [applyActions].
    - exact Hw.
    - unfold result, bind.
      pose proof (applyAction_canonical a w g' Hw) as Ha. unfold result in Ha.
      destruct (applyAction a w g') as [w' g'']. cbn [fst] in Ha.
      apply (IH w' g'' Ha). }
  apply H. reflexivity.
Qed.

(** X9.  A frame that brings no time, or a wind without fluctuation,
    leaves the wind as it is: with [fluctuation * delta <= 0] and a draw
    that is not negative, [updateWind] changes nothing and uses one
    draw. *)
Theorem X9_updateWind_still (delta : Q) (s : WindState) (g : RNG) :
  fair g -> fluctuation s * delta <= 0 ->
  updateWind delta s g = (s, skip 1 g).
Proof.
  intros Hfair Hz. destruct (Hfair (cursor g)) as [H0 _].
  assert (Hgate : ltb (draws g (cursor g)) (fluctuation s * delta * (5 # 10)) = false).
  { apply ltb_ge. lra. }
  unfold updateWind. run_rand. rewrite Hgate. reflexivity.
Qed.

Lemma X9_updateWind_still_witness :
  updateWind 0 initialState (script [1 # 1000])
  = (initialState, skip 1 (script [1 # 1000])).
Proof.
  apply X9_updateWind_still; [fair_script | vm_compute; discriminate].
Defined.



End WindRuns.

(** ** The wave field, cell by cell *)

Section WaveCells.
Import JS WindModel Ocean.
Variable M : HostMath.

(** X11.  The wave height table is strictly increasing along the scale
    and the wave scale never decreases along it, calm or storm; storm
    mode raises both for every category. *)
Theorem X11_wave_tables_monotone (a b : WindStrength) (isStorm : bool) :
  ((WindStore.indexOf WindStore.strengths a < WindStore.indexOf WindStore.strengths b)%Z
   <-> getMaxWaveHeight a isStorm < getMaxWaveHeight b isStorm)
  /\ ((WindStore.indexOf WindStore.strengths a <= WindStore.indexOf WindStore.strengths b)%Z
      -> getWaveScale a isStorm <= getWaveScale b isStorm)
  /\ getMaxWaveHeight a false < getMaxWaveHeight a true
  /\ getWaveScale a false < getWaveScale a true.
Proof.
  split; [|split; [|split]].
  - destruct a, b, isStorm; split; intro H; try reflexivity;
      vm_compute in H; discriminate H.
  - destruct a, b, isStorm; intro H; try (vm_compute; discriminate);
      vm_compute in H; exfalso; apply H; reflexivity.
  - destruct a; reflexivity.
  - destruct a; reflexivity.
Qed.

Lemma X11_wave_tables_monotone_witness :
  getWaveScale LightAir true <= getWaveScale Gale true.
Proof.
  apply (proj1 (proj2 (X11_wave_tables_monotone LightAir Gale true))).
  vm_compute. discriminate.
Defined.

(** Reading a row-by-row table at row [i], column [j]. *)
Lemma nth_error_rows {A B} (g : A -> list B) (n : nat) (l : list A) :
  (forall a, length (g a) = n) ->
  forall i j a, nth_error l i = Some a -> (j < n)%nat ->
    nth_error (flat_map g l) (i * n + j) = nth_error (g a) j.
Proof.
  intro Hg. induction l as [|a0 l IH]; intros i j a Hi Hj.
  - destruct i; discriminate Hi.
  - cbn [flat_map]. destruct i as [|i].
    + cbn [nth_error] in Hi. injection Hi as ->. cbn [Nat.mul Nat.add].
      apply nth_error_app1. rewrite Hg. exact Hj.
    + cbn [nth_error] in Hi.
      rewrite nth_error_app2 by (rewrite Hg; cbn [Nat.mul]; lia).
      rewrite Hg. replace (S i * n + j - n)%nat with (i * n + j)%nat by (cbn [Nat.mul]; lia).
      apply (IH i j a Hi Hj).
Qed.

Lemma nth_error_seq0 (n x : nat) : (x < n)%nat -> nth_error (seq 0 n) x = Some x.
Proof.
  intro H. rewrite (nth_error_nth' _ 0%nat) by (rewrite length_seq; exact H).
  rewrite seq_nth by exact H. reflexivity.
Qed.

(** Where the tick stores the height of grid cell (x, z). *)
Lemma updateWaveHeightMap_cell (p : WaveParams) (time : Q) (o : OceanState) (x z : nat) :
  (x < 40)%nat -> (z < 40)%nat ->
  nth_error (waveHeightMap (updateWaveHeightMap M p time o)) (z * 40 + x)
  = Some (Math_fround (cellHeight M p time x z)).
Proof.
  intros Hx Hz. unfold updateWaveHeightMap. cbn [waveHeightMap].
  change (Z.to_nat WAVE_RESOLUTION) with 40%nat.
  rewrite (nth_error_rows _ 40 (seq 0 40) (fun a => eq_trans (length_map _ _) (length_seq _ _))
             z x z (nth_error_seq0 40 z Hz) Hx).
  rewrite nth_error_map, (nth_error_seq0 40 x Hx). reflexivity.
Qed.

(** X12.  What a tick stores is what a query reads: after
    [updateWaveHeightMap], the height at any world point inside the
    footprint of grid cell (x, z) is the float32 the tick stored for
    that cell, the rounding of the height it computed, whatever the
    field held before. *)
Theorem X12_query_reads_cell (p : WaveParams) (time : Q) (o : OceanState)
    (x z : nat) (wx wz : Q) :
  (x < 40)%nat -> (z < 40)%nat -> inside_cell x wx -> inside_cell z wz ->
  Ocean.getWaveHeight (updateWaveHeightMap M p time o) wx wz
  = Some (Math_fround (cellHeight M p time x z)).
Proof.
  intros Hx Hz Cx Cz. unfold Ocean.getWaveHeight, waveIndex. cbv zeta.
  rewrite (grid_of_cell x wx Cx), (grid_of_cell z wz Cz).
  unfold Math_max, Math_min, WAVE_RESOLUTION.
  replace (Z.max 0 (Z.min (40 - 1) (Z.of_nat z)) * 40
           + Z.max 0 (Z.min (40 - 1) (Z.of_nat x)))%Z
    with (Z.of_nat (z * 40 + x)) by lia.
  destruct (Z.ltb_spec (Z.of_nat (z * 40 + x)) 0) as [Hneg | _]; [lia|].
  rewrite Nat2Z.id. apply updateWaveHeightMap_cell; assumption.
Qed.

End WaveCells.

(** The cell next to the middle of the field, read at the point (1, 1). *)
Lemma X12_query_reads_cell_witness :
  let p := Ocean.mkParams 19 false (6 # 10) (THREE.vec 1 0 0) in
  Ocean.getWaveHeight (Ocean.updateWaveHeightMap RefHost.host p 0 Ocean.createOceanState) 1 1
  = Some (JS.Math_fround (Ocean.cellHeight RefHost.host p 0 20 20)).
Proof.
  cbv zeta.
  apply X12_query_reads_cell; try lia; split; vm_compute; try discriminate; reflexivity.
Defined.

(** ** Float32 rounding keeps order and sign *)

Section Float32Facts.
Import JS.

Lemma pow2_pos (k : Z) : 0 < 2 ^ k.
Proof. apply Qpower_0_lt. reflexivity. Qed.

Lemma pow2_succ (k : Z) : 2 ^ (k + 1) == 2 * 2 ^ k.
Proof.
  rewrite Qpower_plus by (intro H; discriminate H).
  rewrite Qpower_1_r. ring.
Qed.

Lemma pow2_le (n m : Z) : (n <= m)%Z -> 2 ^ n <= 2 ^ m.
Proof. intro H. apply Qpower_le_compat_l; [exact H | discriminate]. Qed.

Lemma pow2_of_Z (n : Z) : (0 <= n)%Z -> inject_Z (2 ^ n) == 2 ^ n.
Proof. intro H. rewrite Zpower_Qpower by exact H. reflexivity. Qed.

(** [ilog2] finds the binade of a positive number. *)
Lemma ilog2_spec (a : Q) : 0 < a -> 2 ^ ilog2 a <= a /\ a < 2 ^ (ilog2 a + 1).
Proof.
  intro Ha. destruct a as [n d].
  assert (Hn : (0 < n)%Z).
  { unfold Qlt in Ha. cbn in Ha. lia. }
  unfold ilog2. cbn [Qnum Qden].
  set (ln := Z.log2 n). set (ld := Z.log2 (Z.pos d)).
  destruct (Z.log2_spec n Hn) as [N1 N2]. fold ln in N1, N2.
  destruct (Z.log2_spec (Z.pos d) ltac:(lia)) as [D1 D2]. fold ld in D1, D2.
  assert (Ln : (0 <= ln)%Z) by apply Z.log2_nonneg.
  assert (Ld : (0 <= ld)%Z) by apply Z.log2_nonneg.
  set (N := inject_Z n). set (D := inject_Z (Z.pos d)).
  assert (Ea : n # d == N / D) by apply Qmake_Qdiv.
  assert (QN1 : 2 ^ ln <= N).
  { rewrite <- pow2_of_Z by exact Ln. unfold N. rewrite <- Zle_Qle. exact N1. }
  assert (QN2 : N < 2 * 2 ^ ln).
  { rewrite <- pow2_succ. rewrite <- pow2_of_Z by lia. unfold N.
    rewrite <- Zlt_Qlt. replace (ln + 1)%Z with (Z.succ ln) by lia. exact N2. }
  assert (QD1 : 2 ^ ld <= D).
  { rewrite <- pow2_of_Z by exact Ld. unfold D. rewrite <- Zle_Qle. exact D1. }
  assert (QD2 : D < 2 * 2 ^ ld).
  { rewrite <- pow2_succ. rewrite <- pow2_of_Z by lia. unfold D.
    rewrite <- Zlt_Qlt. replace (ld + 1)%Z with (Z.succ ld) by lia. exact D2. }
  pose proof (pow2_pos ln) as Pn. pose proof (pow2_pos ld) as Pd.
  assert (HD : 0 < D) by lra.
  assert (Ek : 2 ^ (ln - ld) == 2 ^ ln / 2 ^ ld).
  { apply Qpower_minus. intro H; discriminate H. }
  assert (Up : n # d < 2 * 2 ^ (ln - ld)).
  { rewrite Ea, Ek. apply Qlt_shift_div_r; [exact HD|].
    assert (X : 2 * (2 ^ ln / 2 ^ ld) * D == 2 * 2 ^ ln * (D / 2 ^ ld)) by (field; lra).
    rewrite X.
    assert (Y : 1 <= D / 2 ^ ld) by (apply Qle_shift_div_l; lra).
    assert (Z0 : 2 * 2 ^ ln * 1 <= 2 * 2 ^ ln * (D / 2 ^ ld)).
    { apply Qmult_le_l; lra. }
    lra. }
  assert (Lo : 2 ^ (ln - ld) < 2 * (n # d)).
  { rewrite Ea, Ek.
    apply Qlt_shift_div_r; [exact Pd|].
    assert (X : 2 * (N / D) * 2 ^ ld == N * (2 * 2 ^ ld / D)) by (field; lra).
    rewrite X.
    assert (Y : 1 < 2 * 2 ^ ld / D) by (apply Qlt_shift_div_l; lra).
    assert (Z0 : N * 1 < N * (2 * 2 ^ ld / D)).
    { apply Qmult_lt_l; lra. }
    lra. }
  destruct (Qle_bool (2 ^ (ln - ld)) (n # d)) eqn:E.
  - apply Qle_bool_iff in E. split; [exact E|]. rewrite pow2_succ. exact Up.
  - assert (E' : n # d < 2 ^ (ln - ld)).
    { apply Qnot_le_lt. intro H. apply Qle_bool_iff in H. congruence. }
    replace (ln - ld - 1 + 1)%Z with (ln - ld)%Z by lia.
    split; [|exact E'].
    assert (S : 2 ^ (ln - ld) == 2 * 2 ^ (ln - ld - 1)).
    { rewrite <- pow2_succ. replace (ln - ld - 1 + 1)%Z with (ln - ld)%Z by lia. reflexivity. }
    lra.
Qed.

Lemma ilog2_mono (a b : Q) : 0 < a -> a <= b -> (ilog2 a <= ilog2 b)%Z.
Proof.
  intros Ha Hab.
  destruct (ilog2_spec a Ha) as [A1 _].
  destruct (ilog2_spec b ltac:(lra)) as [_ B2].
  assert (H : 2 ^ ilog2 a < 2 ^ (ilog2 b + 1)) by lra.
  apply Qpower_lt_compat_l_inv in H; [lia | reflexivity].
Qed.

(** Rounding to an integer is between floor and ceiling. *)
Lemma roundHalfEven_floor (q : Q) :
  roundHalfEven q = Qfloor q \/ roundHalfEven q = (Qfloor q + 1)%Z.
Proof.
  unfold roundHalfEven. cbv zeta.
  destruct (Qle_bool _ _); [|right; reflexivity].
  destruct (Qle_bool _ _); [|left; reflexivity].
  destruct (Z.even _); [left | right]; reflexivity.
Qed.

Lemma roundHalfEven_of_Z (z : Z) : roundHalfEven (inject_Z z) = z.
Proof.
  unfold roundHalfEven. cbv zeta. rewrite Qfloor_Z.
  destruct (Qle_bool (inject_Z z - inject_Z z) (1 # 2)) eqn:E1.
  - destruct (Qle_bool (1 # 2) (inject_Z z - inject_Z z)) eqn:E2; [|reflexivity].
    apply Qle_bool_iff in E2. lra.
  - assert (H : inject_Z z - inject_Z z <= 1 # 2) by lra.
    apply Qle_bool_iff in H. congruence.
Qed.

Lemma roundHalfEven_mono (p q : Q) : p <= q -> (roundHalfEven p <= roundHalfEven q)%Z.
Proof.
  intro Hpq.
  assert (Hf : (Qfloor p <= Qfloor q)%Z) by (apply Qfloor_resp_le; exact Hpq).
  destruct (Z.eq_dec (Qfloor p) (Qfloor q)) as [E | N].
  - unfold roundHalfEven. cbv zeta. rewrite E.
    set (n := Qfloor q).
    destruct (Qle_bool (p - inject_Z n) (1 # 2)) eqn:P1;
      destruct (Qle_bool (1 # 2) (p - inject_Z n)) eqn:P2;
      destruct (Qle_bool (q - inject_Z n) (1 # 2)) eqn:Q1;
      destruct (Qle_bool (1 # 2) (q - inject_Z n)) eqn:Q2;
      destruct (Z.even n); try lia;
      repeat match goal with
             | H : Qle_bool _ _ = true |- _ => apply Qle_bool_iff in H
             | H : Qle_bool ?a ?b = false |- _ =>
                 assert (b < a) by (apply Qnot_le_lt; intro X; apply Qle_bool_iff in X; congruence);
                 clear H
             end; lra.
  - destruct (roundHalfEven_floor p) as [-> | ->];
      destruct (roundHalfEven_floor q) as [-> | ->]; lia.
Qed.

Lemma ulp_pos (a : Q) : 0 < 2 ^ (Z.max (ilog2 a) (- 126) - 23).
Proof. apply pow2_pos. Qed.

(** A rounded magnitude stays in the closed binade of the number. *)
Lemma float32Magnitude_upper (a : Q) :
  0 < a -> float32Magnitude a <= 2 ^ (Z.max (ilog2 a) (- 126) + 1).
Proof.
  intro Ha. unfold float32Magnitude. cbv zeta.
  set (e := Z.max (ilog2 a) (- 126)).
  pose proof (pow2_pos (e - 23)) as U.
  destruct (ilog2_spec a Ha) as [_ A2].
  assert (A3 : a <= 2 ^ (e + 1)).
  { apply Qlt_le_weak. apply Qlt_le_trans with (1 := A2). apply pow2_le. lia. }
  assert (S : 2 ^ (e + 1) == inject_Z (2 ^ 24) * 2 ^ (e - 23)).
  { rewrite pow2_of_Z by lia. rewrite <- Qpower_plus by (intro H; discriminate H).
    replace (24 + (e - 23))%Z with (e + 1)%Z by lia. reflexivity. }
  assert (Hq : a / 2 ^ (e - 23) <= inject_Z (2 ^ 24)).
  { apply Qle_shift_div_r; [exact U|]. lra. }
  apply roundHalfEven_mono in Hq. rewrite roundHalfEven_of_Z in Hq.
  rewrite S. apply Qmult_le_compat_r; [|lra].
  rewrite <- Zle_Qle. exact Hq.
Qed.

Lemma float32Magnitude_lower (a : Q) :
  0 < a -> (- 126 <= ilog2 a)%Z -> 2 ^ ilog2 a <= float32Magnitude a.
Proof.
  intros Ha He. unfold float32Magnitude. cbv zeta.
  rewrite Z.max_l by exact He.
  set (e := ilog2 a).
  pose proof (pow2_pos (e - 23)) as U.
  destruct (ilog2_spec a Ha) as [A1 _]. fold e in A1.
  assert (S : 2 ^ e == inject_Z (2 ^ 23) * 2 ^ (e - 23)).
  { rewrite pow2_of_Z by lia. rewrite <- Qpower_plus by (intro H; discriminate H).
    replace (23 + (e - 23))%Z with e by lia. reflexivity. }
  assert (Hq : inject_Z (2 ^ 23) <= a / 2 ^ (e - 23)).
  { apply Qle_shift_div_l; [exact U|]. lra. }
  apply roundHalfEven_mono in Hq. rewrite roundHalfEven_of_Z in Hq.
  rewrite S. apply Qmult_le_compat_r; [|lra].
  rewrite <- Zle_Qle. exact Hq.
Qed.

Lemma float32Magnitude_nonneg (a : Q) : 0 <= a -> 0 <= float32Magnitude a.
Proof.
  intro Ha. unfold float32Magnitude. cbv zeta.
  set (e := Z.max (ilog2 a) (- 126)).
  pose proof (pow2_pos (e - 23)) as U.
  assert (Hq : inject_Z 0 <= a / 2 ^ (e - 23)).
  { apply Qle_shift_div_l; [exact U|]. change (inject_Z 0) with 0. lra. }
  apply roundHalfEven_mono in Hq. rewrite roundHalfEven_of_Z in Hq.
  apply Qmult_le_0_compat; [|lra].
  change 0 with (inject_Z 0). rewrite <- Zle_Qle. exact Hq.
Qed.

Lemma float32Magnitude_mono (a b : Q) :
  0 < a -> a <= b -> float32Magnitude a <= float32Magnitude b.
Proof.
  intros Ha Hab.
  pose proof (ilog2_mono a b Ha Hab) as Hl.
  destruct (Z.eq_dec (Z.max (ilog2 a) (- 126)) (Z.max (ilog2 b) (- 126))) as [E | N].
  - unfold float32Magnitude. cbv zeta. rewrite E.
    set (u := 2 ^ (Z.max (ilog2 b) (- 126) - 23)).
    assert (U : 0 < u) by apply pow2_pos.
    apply Qmult_le_compat_r; [|lra].
    rewrite <- Zle_Qle. apply roundHalfEven_mono.
    apply Qle_shift_div_l; [exact U|].
    assert (X : a / u * u == a) by (field; lra). lra.
  - assert (Hb : (- 126 <= ilog2 b)%Z) by lia.
    apply Qle_trans with (1 := float32Magnitude_upper a Ha).
    apply Qle_trans with (2 := float32Magnitude_lower b ltac:(lra) Hb).
    apply pow2_le. lia.
Qed.

Lemma Qeq_bool_false (q : Q) : Qeq_bool q 0 = false -> ~ q == 0.
Proof. intros H E. apply Qeq_bool_iff in E. congruence. Qed.

(** The sign of a rounded number is the sign of the number. *)
Lemma Math_fround_cases (q : Q) :
  (q == 0 /\ Math_fround q = 0)
  \/ (0 < q /\ Math_fround q = float32Magnitude (Qabs q))
  \/ (q < 0 /\ Math_fround q = - float32Magnitude (Qabs q)).
Proof.
  unfold Math_fround. cbv zeta.
  destruct (Qeq_bool q 0) eqn:E0.
  - left. split; [apply Qeq_bool_iff; exact E0 | reflexivity].
  - apply Qeq_bool_false in E0. right.
    destruct (Qle_bool 0 q) eqn:E1.
    + apply Qle_bool_iff in E1. left. split; [|reflexivity].
      apply Qle_lteq in E1. destruct E1 as [E1 | E1]; [exact E1|].
      exfalso. apply E0. symmetry. exact E1.
    + right. split; [|reflexivity].
      apply Qnot_le_lt. intro H. apply Qle_bool_iff in H. congruence.
Qed.

Lemma Qabs_of_pos (q : Q) : 0 < q -> Qabs q = q.
Proof.
  destruct q as [n d]. unfold Qlt. cbn. intro H.
  rewrite Z.abs_eq by lia. reflexivity.
Qed.

Lemma Qabs_of_neg (q : Q) : q < 0 -> Qabs q = - q.
Proof.
  destruct q as [n d]. unfold Qlt. cbn. intro H.
  rewrite Z.abs_neq by lia. reflexivity.
Qed.

(** [Math.fround] keeps the order of numbers. *)
Lemma Math_fround_mono (x y : Q) : x <= y -> Math_fround x <= Math_fround y.
Proof.
  intro Hxy.
  destruct (Math_fround_cases x) as [[X ->] | [[X ->] | [X ->]]];
    destruct (Math_fround_cases y) as [[Y ->] | [[Y ->] | [Y ->]]];
    try lra.
  - pose proof (float32Magnitude_nonneg (Qabs y) (Qabs_nonneg y)). lra.
  - rewrite (Qabs_of_pos x X), (Qabs_of_pos y Y).
    apply float32Magnitude_mono; assumption.
  - pose proof (float32Magnitude_nonneg (Qabs x) (Qabs_nonneg x)). lra.
  - pose proof (float32Magnitude_nonneg (Qabs x) (Qabs_nonneg x)).
    pose proof (float32Magnitude_nonneg (Qabs y) (Qabs_nonneg y)). lra.
  - rewrite (Qabs_of_neg x X), (Qabs_of_neg y Y).
    assert (H : float32Magnitude (- y) <= float32Magnitude (- x)).
    { apply float32Magnitude_mono; lra. }
    lra.
Qed.

(** [Math.fround] commutes with the change of sign. *)
Lemma Math_fround_opp (x : Q) : Math_fround (- x) == - Math_fround x.
Proof.
  assert (A : Qabs (- x) = Qabs x).
  { destruct x as [n d]. cbn. rewrite Z.abs_opp. reflexivity. }
  destruct (Math_fround_cases x) as [[X ->] | [[X ->] | [X ->]]];
    destruct (Math_fround_cases (- x)) as [[Y ->] | [[Y ->] | [Y ->]]];
    try lra; rewrite A; lra.
Qed.

(** A bound on a number is, rounded, a bound on the rounded number. *)
Lemma Math_fround_bound (x c : Q) :
  Qabs x <= c -> Qabs (Math_fround x) <= Math_fround c.
Proof.
  intro H. apply Qabs_Qle_condition in H. destruct H as [H1 H2].
  apply Qabs_Qle_condition. split.
  - rewrite <- Math_fround_opp. apply Math_fround_mono. exact H1.
  - apply Math_fround_mono. exact H2.
Qed.

End Float32Facts.


Section WaveBounds.
Import JS WindModel Ocean.
Variable M : HostMath.

(** The height of a cell before scaling is a sum of sines with the
    amplitudes 0.5, 0.3, 0.2 and 0.1, and in a storm 0.3, 0.225 and 0.15
    more. *)
Lemma cellHeight_bound (p : WaveParams) (time : Q) (x z : nat) :
  within_unit M -> 0 <= p_maxWaveHeight p ->
  Qabs (cellHeight M p time x z)
  <= (if p_isStorm p then 1775 # 1000 else 11 # 10) * p_maxWaveHeight p.
Proof.
  intros Hu Hm. unfold cellHeight. cbv zeta.
  set (m := p_maxWaveHeight p) in *.
  repeat match goal with
         | |- context [Math_sin M ?t] =>
             let v := fresh "s" in
             let Hv := fresh "Hs" in
             pose proof (proj1 (Hu t)) as Hv;
             set (v := Math_sin M t) in *; clearbody v
         | |- context [Math_cos M ?t] =>
             let v := fresh "c" in
             let Hv := fresh "Hc" in
             pose proof (proj2 (Hu t)) as Hv;
             set (v := Math_cos M t) in *; clearbody v
         end.
  apply Qabs_Qle_condition.
  destruct (p_isStorm p).
  - match goal with |- _ <= ?h * m /\ _ =>
      assert (Hh : - (1775 # 1000) <= h /\ h <= 1775 # 1000) by (split; lra);
      set (hh := h) in *; clearbody hh end.
    destruct Hh as [Hl Hr].
    assert (A : - (1775 # 1000) * m <= hh * m) by (apply Qmult_le_compat_r; assumption).
    assert (B : hh * m <= (1775 # 1000) * m) by (apply Qmult_le_compat_r; assumption).
    split; lra.
  - match goal with |- _ <= ?h * m /\ _ =>
      assert (Hh : - (11 # 10) <= h /\ h <= 11 # 10) by (split; lra);
      set (hh := h) in *; clearbody hh end.
    destruct Hh as [Hl Hr].
    assert (A : - (11 # 10) * m <= hh * m) by (apply Qmult_le_compat_r; assumption).
    assert (B : hh * m <= (11 # 10) * m) by (apply Qmult_le_compat_r; assumption).
    split; lra.
Qed.

(** X13.  On a host whose sine and cosine stay within [-1, 1], every
    height a tick stores, and so every height a query of the field
    returns, is the float32 rounding of a height within 1.1 times the
    maximal wave height of the tick, 1.775 times in a storm; it is
    therefore within the float32 rounding of that limit (which can
    exceed the limit itself by the rounding). *)
Theorem X13_wave_field_bounded (p : WaveParams) (time : Q) (o : OceanState) (wx wz : Q) :
  within_unit M -> 0 <= p_maxWaveHeight p ->
  let limit := (if p_isStorm p then 1775 # 1000 else 11 # 10) * p_maxWaveHeight p in
  (forall h, In h (waveHeightMap (updateWaveHeightMap M p time o)) ->
     Qabs h <= Math_fround limit
     /\ exists height, h = Math_fround height /\ Qabs height <= limit)
  /\ (exists h,
        Ocean.getWaveHeight (updateWaveHeightMap M p time o) wx wz = Some h
        /\ Qabs h <= Math_fround limit
        /\ exists height, h = Math_fround height /\ Qabs height <= limit).
Proof.
  intros Hu Hm. cbv zeta.
  set (limit := (if p_isStorm p then 1775 # 1000 else 11 # 10) * p_maxWaveHeight p).
  assert (Hall : forall h, In h (waveHeightMap (updateWaveHeightMap M p time o)) ->
                   Qabs h <= Math_fround limit
                   /\ exists height, h = Math_fround height /\ Qabs height <= limit).
  { intros h Hin. unfold updateWaveHeightMap in Hin. cbn [waveHeightMap] in Hin.
    apply in_flat_map in Hin. destruct Hin as [z [_ Hin]].
    apply in_map_iff in Hin. destruct Hin as [x [<- _]].
    pose proof (cellHeight_bound p time x z Hu Hm) as Hb. fold limit in Hb.
    split; [apply Math_fround_bound; exact Hb|].
    eexists. split; [reflexivity | exact Hb]. }
  split; [exact Hall|].
  pose proof (updateWaveHeightMap_well_sized M p time o) as Hs.
  pose proof (waveIndex_range wx wz) as Hr.
  unfold Ocean.getWaveHeight.
  destruct (Z.ltb_spec (waveIndex wx wz) 0) as [Hneg | _]; [lia|].
  destruct (nth_error _ (Z.to_nat (waveIndex wx wz))) as [h|] eqn:E.
  - exists h. split; [reflexivity|]. exact (Hall h (nth_error_In _ _ E)).
  - exfalso. apply nth_error_None in E. unfold well_sized in Hs. lia.
Qed.

End WaveBounds.

Lemma clamp_unit_bounds (x : Q) : - 1 <= clamp_unit x /\ clamp_unit x <= 1.
Proof.
  unfold clamp_unit.
  destruct (JS.ltb x (- 1)) eqn:A; [split; vm_compute; discriminate|].
  destruct (JS.ltb 1 x) eqn:B; [split; vm_compute; discriminate|].
  apply ltb_ge in A, B. split; assumption.
Qed.

Lemma unit_host_within_unit : within_unit unit_host.
Proof. intro t. split; apply clamp_unit_bounds. Qed.

(** A moderate breeze without storm: no wave beyond the float32 next
    to 0.66, which is 11072963 / 2^24 = 0.6600000262. *)
Lemma X13_wave_field_bounded_witness :
  let p := Ocean.mkParams 19 false (6 # 10) (THREE.vec 1 0 0) in
  exists h,
    Ocean.getWaveHeight (Ocean.updateWaveHeightMap unit_host p 3 Ocean.createOceanState) 7 (- 12)
    = Some h
    /\ Qabs h <= 11072963 # 16777216.
Proof.
  cbv zeta.
  destruct (proj2 (X13_wave_field_bounded unit_host
                     (Ocean.mkParams 19 false (6 # 10) (THREE.vec 1 0 0)) 3
                     Ocean.createOceanState 7 (- 12)
                     unit_host_within_unit ltac:(vm_compute; discriminate)))
    as [h [E [B _]]].
  exists h. split; [exact E|].
  apply Qle_trans with (1 := B). vm_compute. discriminate.
Defined.

(** ** The sail trim *)

Section SailTrim.
Import JS WindModel ShipTypes THREE Ship.

Lemma calculateOptimalSailAngle_range (a : Q) :
  0 <= calculateOptimalSailAngle a /\ calculateOptimalSailAngle a <= 8 # 10.
Proof.
  unfold calculateOptimalSailAngle. cbv zeta.
  repeat (match goal with |- context [if ?b then _ else _] => destruct b end);
    split; vm_compute; discriminate.
Qed.

(** One tick of the interval, by the distance to the optimal trim (in
    exact arithmetic; at a distance of 0.1 the last digit of the host's
    arithmetic decides). *)
Lemma adjustSail_cases (opt : Q) (ps : ShipPhysicsState) :
  (Qabs (opt - sailAngle ps) <= 1 # 10 -> adjustSail opt ps = ps)
  /\ (1 # 10 < Qabs (opt - sailAngle ps) ->
      sailAngle (adjustSail opt ps) = sailAngle ps + (opt - sailAngle ps) * (1 # 10)).
Proof.
  unfold adjustSail, Math_abs, gtb. cbv zeta.
  set (g := opt - sailAngle ps).
  assert (E : sailAngle ps + g * (1 # 10) - sailAngle ps == g * (1 # 10)) by ring.
  assert (Ea : Qabs (sailAngle ps + g * (1 # 10) - sailAngle ps) == Qabs g * (1 # 10)).
  { rewrite E, Qabs_Qmult. reflexivity. }
  split; intro H.
  - assert (L : ltb (1 # 100) (Qabs (sailAngle ps + g * (1 # 10) - sailAngle ps)) = false).
    { apply ltb_ge. rewrite Ea. lra. }
    rewrite L. reflexivity.
  - assert (L : ltb (1 # 100) (Qabs (sailAngle ps + g * (1 # 10) - sailAngle ps)) = true).
    { apply ltb_lt. rewrite Ea. lra. }
    rewrite L. reflexivity.
Qed.

(** X14.  A tick of the sail interval touches the sail angle only; it
    does nothing when the optimal trim is within 0.099 of the sail
    angle, and from 0.101 on it takes the sail a tenth of the way,
    leaving nine tenths of the distance (in between, the rounding of the
    step against its threshold of 0.01 decides); it never takes the sail
    further from the optimal trim. *)
Theorem X14_adjustSail_step (opt : Q) (ps : ShipPhysicsState) :
  let ps' := adjustSail opt ps in
  (velocity ps' = velocity ps /\ angularVelocity ps' = angularVelocity ps
   /\ buoyancyPoints ps' = buoyancyPoints ps /\ shipRotation ps' = shipRotation ps
   /\ previousSailAngle ps' = previousSailAngle ps)
  /\ (Qabs (opt - sailAngle ps) <= 99 # 1000 -> ps' = ps)
  /\ (101 # 1000 <= Qabs (opt - sailAngle ps) ->
      opt - sailAngle ps' == (9 # 10) * (opt - sailAngle ps))
  /\ Qabs (opt - sailAngle ps') <= Qabs (opt - sailAngle ps).
Proof.
  cbv zeta. destruct (adjustSail_cases opt ps) as [Hstay Hmove].
  split; [|split; [intro H; apply Hstay; lra|split]].
  - unfold adjustSail. cbv zeta. destruct (gtb _ _); repeat split.
  - intro H. rewrite (Hmove ltac:(lra)). ring.
  - destruct (Qlt_le_dec (1 # 10) (Qabs (opt - sailAngle ps))) as [H | H].
    + assert (E : opt - sailAngle (adjustSail opt ps) == (9 # 10) * (opt - sailAngle ps))
        by (rewrite (Hmove H); ring).
      rewrite E, Qabs_Qmult. change (Qabs (9 # 10)) with (9 # 10).
      pose proof (Qabs_nonneg (opt - sailAngle ps)). lra.
    + rewrite (Hstay H). apply Qle_refl.
Qed.

Lemma X14_adjustSail_step_witness :
  let ps := mkPhys (vec 0 0 0) (vec 0 0 0) [] 0 0 0 in
  (8 # 10) - sailAngle (adjustSail (8 # 10) ps) == (9 # 10) * ((8 # 10) - sailAngle ps)
  /\ adjustSail (5 # 100) ps = ps.
Proof.
  cbv zeta. split.
  - apply (proj1 (proj2 (proj2 (X14_adjustSail_step (8 # 10)
                                  (mkPhys (vec 0 0 0) (vec 0 0 0) [] 0 0 0))))).
    vm_compute. discriminate.
  - apply (proj1 (proj2 (X14_adjustSail_step (5 # 100)
                           (mkPhys (vec 0 0 0) (vec 0 0 0) [] 0 0 0)))).
    vm_compute. discriminate.
Defined.

(** The distance to the optimal trim after [n] ticks. *)
Lemma adjustSailTimes_gap (opt : Q) (n : nat) :
  forall ps,
    (9 # 100 < Qabs (opt - sailAngle ps) ->
     9 # 100 < Qabs (opt - sailAngle (adjustSailTimes n opt ps)))
    /\ (Qabs (opt - sailAngle (adjustSailTimes n opt ps)) <= 1 # 10
        \/ Qabs (opt - sailAngle (adjustSailTimes n opt ps))
           <= Qabs (opt - sailAngle ps) - inject_Z (Z.of_nat n) * (1 # 100)).
Proof.
  induction n as [|n IH]; intro ps; cbn [adjustSailTimes].
  - split; [tauto|]. right. change (inject_Z (Z.of_nat 0)) with 0. lra.
  - destruct (adjustSail_cases opt ps) as [Hstay Hmove].
    destruct (IH (adjustSail opt ps)) as [IH1 IH2].
    destruct (Qlt_le_dec (1 # 10) (Qabs (opt - sailAngle ps))) as [H | H].
    + assert (E : opt - sailAngle (adjustSail opt ps) == (9 # 10) * (opt - sailAngle ps))
        by (rewrite (Hmove H); ring).
      assert (Ea : Qabs (opt - sailAngle (adjustSail opt ps))
                   == (9 # 10) * Qabs (opt - sailAngle ps)).
      { rewrite E, Qabs_Qmult. reflexivity. }
      split.
      * intros _. apply IH1. rewrite Ea. lra.
      * destruct IH2 as [IH2 | IH2]; [left; exact IH2 | right].
        rewrite Nat2Z.inj_succ. unfold Z.succ. rewrite inject_Z_plus.
        change (inject_Z 1) with 1. lra.
    + rewrite (Hstay H) in *. split; [exact IH1|].
      destruct IH2 as [IH2 | IH2]; [left; exact IH2 | left].
      assert (0 <= inject_Z (Z.of_nat n)).
      { change 0 with (inject_Z 0). rewrite <- Zle_Qle. lia. }
      lra.
Qed.

(** X15.  The sail never arrives at the optimal trim: from more than
    0.1 away it stays more than 0.089 away after any number of ticks
    (the last step leaves nine tenths of a distance of about 0.1 or
    more); and from anywhere in the range of trims, [0, 0.8], it is
    within 0.101 of the optimal trim after 70 ticks (7 seconds).  The
    two margins leave room for the rounding of the step against its
    threshold: in doubles the sail at 0.49500000000000005 rests under a
    trim of 0.5950000000000001, a last digit more than 0.1 away. *)
Theorem X15_sail_stops_short (windDirection : Q) (ps : ShipPhysicsState) (n : nat) :
  let opt := optimalSailAngle windDirection ps in
  (1 # 10 < Qabs (opt - sailAngle ps) ->
   89 # 1000 < Qabs (opt - sailAngle (adjustSailTimes n opt ps)))
  /\ (0 <= sailAngle ps -> sailAngle ps <= 8 # 10 -> (70 <= n)%nat ->
      Qabs (opt - sailAngle (adjustSailTimes n opt ps)) <= 101 # 1000).
Proof.
  cbv zeta. set (opt := optimalSailAngle windDirection ps).
  destruct (adjustSailTimes_gap opt n ps) as [A B].
  split.
  - intro H. assert (A' := A ltac:(lra)). lra.
  - intros H0 H1 Hn. destruct B as [B | B]; [lra|].
    destruct (calculateOptimalSailAngle_range
                (getAngleBetweenWindAndShip (shipRotation ps) windDirection)) as [O0 O1].
    fold (optimalSailAngle windDirection ps) in O0, O1. fold opt in O0, O1.
    assert (G : Qabs (opt - sailAngle ps) <= 8 # 10).
    { apply Qabs_Qle_condition. split; lra. }
    assert (N : 70 <= inject_Z (Z.of_nat n)).
    { change 70 with (inject_Z 70). rewrite <- Zle_Qle. lia. }
    lra.
Qed.

(** Close hauled (wind 0.7 rad off the bow), sail centred: after 100
    ticks the sail is within 0.101 of the trim 0.8 and not within 0.089. *)
Lemma X15_sail_stops_short_witness :
  let ps := mkPhys (vec 0 0 0) (vec 0 0 0) [] 0 0 0 in
  let opt := optimalSailAngle (7 # 10) ps in
  89 # 1000 < Qabs (opt - sailAngle (adjustSailTimes 100 opt ps))
  /\ Qabs (opt - sailAngle (adjustSailTimes 100 opt ps)) <= 101 # 1000.
Proof.
  cbv zeta. split.
  - apply (proj1 (X15_sail_stops_short (7 # 10)
                    (mkPhys (vec 0 0 0) (vec 0 0 0) [] 0 0 0) 100)).
    reflexivity.
  - apply (proj2 (X15_sail_stops_short (7 # 10)
                    (mkPhys (vec 0 0 0) (vec 0 0 0) [] 0 0 0) 100)).
    + vm_compute; discriminate.
    + vm_compute; discriminate.
    + lia.
Defined.

End SailTrim.

(** ** The hull's buoyancy points *)

Section HullPoints.
Import JS WindModel ShipTypes THREE Ship.

Lemma in_span (n : nat) (i : Z) : In i (span n) <-> (0 <= i < Z.of_nat n)%Z.
Proof.
  unfold span. rewrite in_map_iff. split.
  - intros [k [<- Hk]]. apply in_seq in Hk. lia.
  - intro H. exists (Z.to_nat i). split; [lia|]. apply in_seq. lia.
Qed.

(** A fraction of the way along an axis, centred and scaled back to
    game units. *)
Lemma centred_scaled (i n : Z) (d unit : Q) :
  (0 <= i < n)%Z -> (2 <= n)%Z -> 0 < d -> 0 <= unit ->
  let pos := (inject_Z i / inject_Z (n - 1) - (5 # 10)) * d * (unit / d) in
  - (unit / 2) <= pos /\ pos <= unit / 2.
Proof.
  intros Hi Hn Hd Hu. cbv zeta.
  assert (Hn1 : 0 < inject_Z (n - 1)).
  { change 0 with (inject_Z 0). rewrite <- Zlt_Qlt. lia. }
  assert (F0 : 0 <= inject_Z i / inject_Z (n - 1)).
  { apply Qle_shift_div_l; [exact Hn1|].
    assert (0 <= inject_Z i) by (change 0 with (inject_Z 0); rewrite <- Zle_Qle; lia).
    lra. }
  assert (F1 : inject_Z i / inject_Z (n - 1) <= 1).
  { apply Qle_shift_div_r; [exact Hn1|].
    assert (inject_Z i <= inject_Z (n - 1)) by (rewrite <- Zle_Qle; lia). lra. }
  set (t := inject_Z i / inject_Z (n - 1)) in *.
  assert (E : (t - (5 # 10)) * d * (unit / d) == (t - (5 # 10)) * unit) by (field; lra).
  rewrite E.
  assert (A : (0 - (5 # 10)) * unit <= (t - (5 # 10)) * unit)
    by (apply Qmult_le_compat_r; lra).
  assert (B : (t - (5 # 10)) * unit <= (1 - (5 # 10)) * unit)
    by (apply Qmult_le_compat_r; lra).
  unfold Qdiv. change (/ 2) with (1 # 2). split; lra.
Qed.

(** X16.  For every ship of positive length and width there are
    max(4, floor(length / 4)) times max(2, floor(width / 3)) buoyancy
    points, at least eight, all 0.4 below the centre and inside the
    3 by 1 footprint of the model: x in [-0.5, 0.5], z in [-1.5, 1.5]. *)
Theorem X16_buoyancy_points_in_hull (stats : ShipStats) :
  0 < ShipTypes.length stats -> 0 < width stats ->
  let nl := Math_max 4 (Math_floor (ShipTypes.length stats / 4)) in
  let nw := Math_max 2 (Math_floor (width stats / 3)) in
  List.length (initBuoyancyPoints stats) = (Z.to_nat nl * Z.to_nat nw)%nat
  /\ (8 <= List.length (initBuoyancyPoints stats))%nat
  /\ forall p, In p (initBuoyancyPoints stats) ->
       vy p = - (4 # 10)
       /\ (- (1 # 2) <= vx p /\ vx p <= 1 # 2)
       /\ (- (3 # 2) <= vz p /\ vz p <= 3 # 2).
Proof.
  intros Hl Hw. cbv zeta. unfold initBuoyancyPoints. cbv zeta.
  set (nl := Math_max 4 (Math_floor (ShipTypes.length stats / 4))).
  set (nw := Math_max 2 (Math_floor (width stats / 3))).
  assert (Hnl : (4 <= nl)%Z) by (unfold nl, Math_max; lia).
  assert (Hnw : (2 <= nw)%Z) by (unfold nw, Math_max; lia).
  assert (Hlen : List.length
            (flat_map (fun z : Z =>
               map (fun x : Z =>
                 vec ((inject_Z x / inject_Z (nw - 1) - (5 # 10)) * width stats
                      * (1 / width stats))
                     (- (4 # 10))
                     ((inject_Z z / inject_Z (nl - 1) - (5 # 10)) * ShipTypes.length stats
                      * (3 / ShipTypes.length stats)))
                 (span (Z.to_nat nw))) (span (Z.to_nat nl)))
          = (Z.to_nat nl * Z.to_nat nw)%nat).
  { rewrite (flat_map_length_const _ (Z.to_nat nw)).
    - unfold span. rewrite length_map, length_seq. reflexivity.
    - intro z. unfold span. rewrite !length_map, length_seq. reflexivity. }
  split; [exact Hlen|]. split; [rewrite Hlen; nia|].
  intros p Hin. apply in_flat_map in Hin. destruct Hin as [z [Hz Hin]].
  apply in_map_iff in Hin. destruct Hin as [x [<- Hx]].
  apply in_span in Hz, Hx. rewrite Z2Nat.id in Hz, Hx by lia.
  cbn [vx vy vz]. split; [reflexivity|]. split.
  - apply (centred_scaled x nw (width stats) 1 Hx Hnw Hw). vm_compute; discriminate.
  - apply (centred_scaled z nl (ShipTypes.length stats) 3 Hz (ltac:(lia)) Hl).
    vm_compute; discriminate.
Qed.

(** Every ship class has a positive length and width, so its frame
    callback is never held up for want of points. *)
Lemma X16_buoyancy_points_in_hull_witness :
  (8 <= List.length (initBuoyancyPoints (SHIP_STATS Frigate)))%nat.
Proof.
  apply (proj1 (proj2 (X16_buoyancy_points_in_hull (SHIP_STATS Frigate)
                         ltac:(reflexivity) ltac:(reflexivity)))).
Defined.

End HullPoints.

(** ** The frame: cap, drag, buoyancy and what a frame leaves alone *)

Section FrameMore.
Import JS WindModel ShipTypes THREE Ship.
Variable M : HostMath.

(** X17.  The cap leaves the vertical velocity alone and leaves a
    velocity whose horizontal length is within the cap as it is.  When
    the horizontal length is above the cap, and the host's square root is
    exact for it, the horizontal velocity keeps its direction and gets
    exactly the length of the cap. *)
Theorem X17_capSpeed_exact (cap : Q) (v : Vector3) :
  let l := THREE.length M (vec (vx v) 0 (vz v)) in
  let r := capSpeed M cap v in
  vy r = vy v
  /\ (l <= cap -> r = v)
  /\ (cap < l -> 0 <= cap -> l * l == vx v * vx v + vz v * vz v ->
      vx r * vx r + vz r * vz r == cap * cap
      /\ vx r * vz v == vz r * vx v).
Proof.
  cbv zeta. split; [apply capSpeed_vertical|]. split.
  - intro H. apply capSpeed_unbound. unfold gtb. apply ltb_ge. exact H.
  - intros Hb Hc Hl. unfold capSpeed. cbv zeta.
    assert (G : gtb (THREE.length M (vec (vx v) 0 (vz v))) cap = true)
      by (unfold gtb; apply ltb_lt; exact Hb).
    rewrite G. unfold normalize, or_else.
    set (l := THREE.length M (vec (vx v) 0 (vz v))) in *.
    assert (Hpos : 0 < l) by lra.
    assert (Z : Qeq_bool l 0 = false).
    { destruct (Qeq_bool l 0) eqn:E; [|reflexivity].
      apply Qeq_bool_iff in E. lra. }
    rewrite Z. cbn [vx vy vz divideScalar multiplyScalar].
    split.
    + assert (E : vx v / l * cap * (vx v / l * cap) + vz v / l * cap * (vz v / l * cap)
                  == (vx v * vx v + vz v * vz v) / (l * l) * (cap * cap))
        by (field; lra).
      rewrite E, <- Hl. field. lra.
    + field. lra.
Qed.

(** X18.  A ship past its stabilisation that is given neither forward
    nor backward input coasts: below the cap, a frame multiplies its
    horizontal velocity by the drag factor, which lies between 0.931 and
    0.99, so its squared horizontal speed falls to at most 98.01 %. *)
Theorem X18_coasting_slows (props : ShipProps) (f : Frame) (group : Group)
    (s : ShipInstance) :
  shipRef s = Some group -> buoyancyPoints (physicsState s) <> [] ->
  isInitialized s = true ->
  Controls.forward (controls f) = false -> Controls.backward (controls f) = false ->
  capBinds M props f group s = false ->
  let drag := finalDrag f (physicsState s) in
  let s' := useFrame M props f s in
  (931 # 1000 <= drag /\ drag <= 99 # 100)
  /\ vx (velocity (physicsState s')) == vx (velocity (physicsState s)) * drag
  /\ vz (velocity (physicsState s')) == vz (velocity (physicsState s)) * drag
  /\ horizontalSpeedSq s' <= (9801 # 10000) * horizontalSpeedSq s.
Proof.
  intros Href Hpts Hinit Hf Hb Hcap. cbv zeta.
  rewrite (useFrame_active M props f group s Href Hpts Hinit).
  destruct (integrate_below_cap M props f group s Hcap) as [Ix Iz].
  assert (Px : vx (propel M (SHIP_STATS (shipClass props)) (damage props) f (physicsState s))
               = vx (velocity (physicsState s)) * finalDrag f (physicsState s)).
  { unfold propel. cbv zeta. rewrite Hf, Hb. reflexivity. }
  assert (Pz : vz (propel M (SHIP_STATS (shipClass props)) (damage props) f (physicsState s))
               = vz (velocity (physicsState s)) * finalDrag f (physicsState s)).
  { unfold propel. cbv zeta. rewrite Hf, Hb. reflexivity. }
  rewrite Px in Ix. rewrite Pz in Iz.
  destruct (finalDrag_bounds f (physicsState s)) as [D0 D1].
  split; [split; assumption|]. split; [exact Ix|]. split; [exact Iz|].
  unfold horizontalSpeedSq. rewrite Ix, Iz.
  set (d := finalDrag f (physicsState s)) in *.
  set (a := vx (velocity (physicsState s))). set (b := vz (velocity (physicsState s))).
  assert (Hd : d * d <= 9801 # 10000).
  { assert (d * d <= (99 # 100) * d) by (apply Qmult_le_compat_r; lra).
    assert ((99 # 100) * d <= (99 # 100) * (99 # 100)) by lra. lra. }
  assert (Hs : 0 <= a * a + b * b).
  { assert (0 <= a * a) by (rewrite <- (Qmult_0_l 0); destruct (Qlt_le_dec a 0);
      [setoid_replace (a * a) with ((- a) * (- a)) by ring | ];
      apply Qmult_le_compat_nonneg; split; lra).
    assert (0 <= b * b) by (rewrite <- (Qmult_0_l 0); destruct (Qlt_le_dec b 0);
      [setoid_replace (b * b) with ((- b) * (- b)) by ring | ];
      apply Qmult_le_compat_nonneg; split; lra).
    lra. }
  assert (E : a * d * (a * d) + b * d * (b * d) == d * d * (a * a + b * b)) by ring.
  rewrite E.
  apply Qmult_le_compat_r; assumption.
Qed.

End FrameMore.

(** The velocity (3, 7, 4) under a cap of 1: the reference host's
    square root of 25 is 5, and the capped horizontal speed is 1. *)
Lemma X17_capSpeed_exact_witness :
  let r := Ship.capSpeed RefHost.host 1 (THREE.vec 3 7 4) in
  THREE.vx r * THREE.vx r + THREE.vz r * THREE.vz r == 1 * 1
  /\ Ship.capSpeed RefHost.host 10 (THREE.vec 3 7 4) = THREE.vec 3 7 4.
Proof.
  cbv zeta. split.
  - destruct (proj2 (proj2 (X17_capSpeed_exact RefHost.host 1 (THREE.vec 3 7 4)))) as [H _];
      [reflexivity | vm_compute; discriminate | reflexivity | exact H].
  - apply (proj1 (proj2 (X17_capSpeed_exact RefHost.host 10 (THREE.vec 3 7 4)))).
    vm_compute. discriminate.
Defined.

(** The balanced Sloop of the scenario, its input let go: it slows. *)
Lemma X18_coasting_slows_witness :
  let props := Scenario.sloop ShipTypes.createDefaultShipDamage in
  let s := Scenario.balanced ShipTypes.createDefaultShipDamage in
  horizontalSpeedSq (Ship.useFrame RefHost.host props Scenario.idle s)
  <= (9801 # 10000) * horizontalSpeedSq s.
Proof.
  cbv zeta.
  eapply (fun g H1 H2 H3 H4 H5 H6 =>
            proj2 (proj2 (proj2 (X18_coasting_slows RefHost.host
              (Scenario.sloop ShipTypes.createDefaultShipDamage) Scenario.idle g
              (Scenario.balanced ShipTypes.createDefaultShipDamage)
              H1 H2 H3 H4 H5 H6)))).
  - vm_compute. reflexivity.
  - discriminate.
  - reflexivity.
  - reflexivity.
  - reflexivity.
  - vm_compute. reflexivity.
Defined.

Section FrameRuns.
Import JS WindModel ShipTypes THREE Ship.
Variable M : HostMath.

(** What no frame touches, and what no frame undoes. *)
Lemma useFrame_keeps (props : ShipProps) (f : Frame) (s : ShipInstance) :
  let s' := useFrame M props f s in
  buoyancyPoints (physicsState s') = buoyancyPoints (physicsState s)
  /\ sailAngle (physicsState s') = sailAngle (physicsState s)
  /\ previousSailAngle (physicsState s') = previousSailAngle (physicsState s)
  /\ (isInitialized s = true -> isInitialized s' = true)
  /\ (shipRef s = None <-> shipRef s' = None)
  /\ (hullRef s = None <-> hullRef s' = None).
Proof.
  cbv zeta. unfold useFrame.
  destruct (shipRef s) as [group|] eqn:Eg.
  2:{ rewrite Eg. repeat split; auto. }
  destruct (List.length (buoyancyPoints (physicsState s)) =? 0)%nat.
  { rewrite Eg. repeat split; auto; discriminate. }
  assert (I : forall s0, shipRef s0 = Some group ->
            let s' := integrate M props f group s0 in
            buoyancyPoints (physicsState s') = buoyancyPoints (physicsState s0)
            /\ sailAngle (physicsState s') = sailAngle (physicsState s0)
            /\ previousSailAngle (physicsState s') = previousSailAngle (physicsState s0)
            /\ (isInitialized s0 = true -> isInitialized s' = true)
            /\ (shipRef s0 = None <-> shipRef s' = None)
            /\ (hullRef s0 = None <-> hullRef s' = None)).
  { intros s0 E0. cbv zeta. unfold integrate. cbv zeta.
    destruct (buoyancy _ _ _ _ _ _) as [tf tt].
    cbn [physicsState buoyancyPoints sailAngle previousSailAngle isInitialized shipRef hullRef].
    rewrite E0. repeat split; auto; try discriminate.
    - destruct (hullRef s0); [discriminate | reflexivity].
    - destruct (hullRef s0); [discriminate | reflexivity]. }
  destruct (isInitialized s) eqn:Ei; cbn [negb].
  - specialize (I s Eg). cbv zeta in I. rewrite Ei, Eg in I. exact I.
  - destruct (scene_ocean f) as [ocean|].
    + cbn [physicsState isInitialized shipRef hullRef].
      repeat split; auto; discriminate.
    + specialize (I (mkShip (physicsState s) false (initializationTime s + delta f)
                            (Some group) (hullRef s)) eq_refl).
      cbv zeta in I. cbn [physicsState isInitialized shipRef hullRef] in I.
      destruct I as [A [B [C [_ [D E]]]]].
      split; [exact A|]. split; [exact B|]. split; [exact C|].
      split; [discriminate|]. split; [exact D | exact E].
Qed.

(** X19.  Over any run of frames the buoyancy points and the sail
    angles are left alone, a ship that is initialised stays so, the
    refs stay set or unset as they were; and a ship that is not mounted,
    or has no buoyancy points, is not changed at all. *)
Theorem X19_run_keeps (props : ShipProps) (frames : list Frame) (s : ShipInstance) :
  let s' := run M props frames s in
  buoyancyPoints (physicsState s') = buoyancyPoints (physicsState s)
  /\ sailAngle (physicsState s') = sailAngle (physicsState s)
  /\ previousSailAngle (physicsState s') = previousSailAngle (physicsState s)
  /\ (isInitialized s = true -> isInitialized s' = true)
  /\ (shipRef s = None <-> shipRef s' = None)
  /\ (shipRef s = None \/ buoyancyPoints (physicsState s) = [] -> s' = s).
Proof.
  cbv zeta. revert s. induction frames as [|f frames IH]; intro s; cbn [run].
  - repeat split; auto.
  - destruct (useFrame_keeps props f s) as [A [B [C [D [E _]]]]].
    destruct (IH (useFrame M props f s)) as [A' [B' [C' [D' [E' F']]]]].
    split; [congruence|]. split; [congruence|]. split; [congruence|].
    split; [auto|]. split; [tauto|].
    intro Hidle.
    assert (Hs : useFrame M props f s = s).
    { unfold useFrame. destruct Hidle as [H | H].
      - rewrite H. reflexivity.
      - destruct (shipRef s); [|reflexivity]. rewrite H. reflexivity. }
    rewrite Hs in F'. rewrite Hs. apply F'. exact Hidle.
Qed.


End FrameRuns.

Section BuoyancyMore.
Import JS WindModel ShipTypes THREE Ship.

Lemma calculateBuoyancyForce_up stats damage ocean point shipPos shipMatrix :
  0 <= displacement stats -> 0 <= hullIntegrity damage ->
  0 <= vy (calculateBuoyancyForce stats damage ocean point shipPos shipMatrix).
Proof.
  intros Hd Hh. unfold calculateBuoyancyForce. cbv zeta.
  destruct (ltb _ 0) eqn:E; cbn [vy]; [apply Qle_refl|].
  apply ltb_ge in E.
  assert (H1 : 0 <= displacement stats / 1000) by (apply Qle_shift_div_l; [reflexivity | lra]).
  repeat apply Qmult_le_0_compat; try assumption; try lra. vm_compute; discriminate.
Qed.

Lemma buoyancy_fold_up stats damage ocean shipPos shipMatrix points :
  0 <= displacement stats -> 0 <= hullIntegrity damage ->
  forall acc : Vector3 * Vector3,
    0 <= vy (fst acc) ->
    0 <= vy (fst (fold_left
      (fun (acc : Vector3 * Vector3) point =>
         let (totalBuoyancyForce, totalTorque) := acc in
         let force := calculateBuoyancyForce stats damage ocean point shipPos shipMatrix in
         if gtb (lengthSq force) 0 then
           let worldPoint := applyMatrix4 point shipMatrix in
           let relPos := sub worldPoint shipPos in
           let torque := crossVectors relPos force in
           (add totalBuoyancyForce force, add totalTorque torque)
         else acc) points acc)).
Proof.
  intros Hd Hh. induction points as [|p pts IH]; intros acc Hacc; cbn [fold_left];
    [exact Hacc|].
  apply IH. destruct acc as [tf tt]. cbn [fst] in *.
  pose proof (calculateBuoyancyForce_up stats damage ocean p shipPos shipMatrix Hd Hh).
  destruct (gtb _ 0); cbn [fst add vy]; lra.
Qed.

Lemma buoyancy_fold_dry stats damage ocean shipPos shipMatrix points :
  (forall p, In p points ->
     getWaveHeight ocean (vx (applyMatrix4 p shipMatrix)) (vz (applyMatrix4 p shipMatrix))
     < vy (applyMatrix4 p shipMatrix)) ->
  forall acc : Vector3 * Vector3,
    fold_left
      (fun (acc : Vector3 * Vector3) point =>
         let (totalBuoyancyForce, totalTorque) := acc in
         let force := calculateBuoyancyForce stats damage ocean point shipPos shipMatrix in
         if gtb (lengthSq force) 0 then
           let worldPoint := applyMatrix4 point shipMatrix in
           let relPos := sub worldPoint shipPos in
           let torque := crossVectors relPos force in
           (add totalBuoyancyForce force, add totalTorque torque)
         else acc) points acc = acc.
Proof.
  induction points as [|p pts IH]; intros Hdry acc; cbn [fold_left]; [reflexivity|].
  assert (F : calculateBuoyancyForce stats damage ocean p shipPos shipMatrix = vec 0 0 0).
  { unfold calculateBuoyancyForce. cbv zeta.
    assert (L : ltb (getWaveHeight ocean (vx (applyMatrix4 p shipMatrix))
                       (vz (applyMatrix4 p shipMatrix)) - vy (applyMatrix4 p shipMatrix)) 0
                = true).
    { apply ltb_lt. pose proof (Hdry p (or_introl eq_refl)). lra. }
    rewrite L. reflexivity. }
  destruct acc as [tf tt]. rewrite F.
  change (gtb (lengthSq (vec 0 0 0)) 0) with false. cbv iota.
  apply IH. intros q Hq. apply Hdry. right. exact Hq.
Qed.

(** X21.  Buoyancy never pushes down or sideways: for a displacement
    and a hull integrity that are not negative, the total force over any
    set of points is vertical and not negative; and force and torque are
    the zero vector when no point is under water. *)
Theorem X21_buoyancy_upward stats damage ocean points shipPos shipMatrix :
  0 <= displacement stats -> 0 <= hullIntegrity damage ->
  let total := fst (buoyancy stats damage ocean points shipPos shipMatrix) in
  vx total = 0 /\ vz total = 0 /\ 0 <= vy total
  /\ ((forall p, In p points ->
         getWaveHeight ocean (vx (applyMatrix4 p shipMatrix)) (vz (applyMatrix4 p shipMatrix))
         < vy (applyMatrix4 p shipMatrix)) ->
      buoyancy stats damage ocean points shipPos shipMatrix = (vec 0 0 0, vec 0 0 0)).
Proof.
  intros Hd Hh. cbv zeta.
  destruct (buoyancy_vertical stats damage ocean points shipPos shipMatrix) as [Tx Tz].
  split; [exact Tx|]. split; [exact Tz|]. split.
  - unfold buoyancy. apply buoyancy_fold_up; try assumption. apply Qle_refl.
  - intro Hdry. unfold buoyancy. apply buoyancy_fold_dry. exact Hdry.
Qed.

(** A Sloop at rest on a flat sea: the eight points, 0.4 under water,
    push it up. *)
Lemma X21_buoyancy_upward_witness :
  let stats := SHIP_STATS Sloop in
  let shipMatrix := setPosition (makeRotationY RefHost.host 0) (vec 0 0 0) in
  0 <= vy (fst (buoyancy stats createDefaultShipDamage None (initBuoyancyPoints stats)
                         (vec 0 0 0) shipMatrix))
  /\ buoyancy stats createDefaultShipDamage None [vec 0 1 0] (vec 0 0 0) shipMatrix
     = (vec 0 0 0, vec 0 0 0).
Proof.
  cbv zeta. split.
  - apply (proj1 (proj2 (proj2 (X21_buoyancy_upward (SHIP_STATS Sloop) createDefaultShipDamage
                                  None (initBuoyancyPoints (SHIP_STATS Sloop)) (vec 0 0 0)
                                  (setPosition (makeRotationY RefHost.host 0) (vec 0 0 0))
                                  ltac:(vm_compute; discriminate)
                                  ltac:(vm_compute; discriminate))))).
  - apply (proj2 (proj2 (proj2 (X21_buoyancy_upward (SHIP_STATS Sloop) createDefaultShipDamage
                                  None [vec 0 1 0] (vec 0 0 0)
                                  (setPosition (makeRotationY RefHost.host 0) (vec 0 0 0))
                                  ltac:(vm_compute; discriminate)
                                  ltac:(vm_compute; discriminate))))).
    intros p [<- | []]. vm_compute. reflexivity.
Defined.

End BuoyancyMore.


(** A ship that is not mounted is left as it is by the scenario's frames. *)
Lemma X19_run_keeps_witness :
  let s := Ship.mkShip (Ship.physicsState Scenario.settled) true 1 None None in
  Ship.run RefHost.host (Scenario.sloop ShipTypes.createDefaultShipDamage)
           [Scenario.sail; Scenario.port] s = s.
Proof.
  cbv zeta.
  apply (proj2 (proj2 (proj2 (proj2 (proj2
    (X19_run_keeps RefHost.host (Scenario.sloop ShipTypes.createDefaultShipDamage)
       [Scenario.sail; Scenario.port]
       (Ship.mkShip (Ship.physicsState Scenario.settled) true 1 None None))))))).
  left. reflexivity.
Defined.

(** ** Keys, sliders and the compass *)

Section Panels.
Import JS WindModel ShipTypes.

Lemma setKey_fields (key : String.string) (pressed : bool) (s : Controls.ControlState) :
  let s' := Controls.setKey key pressed s in
  Controls.forward s' = (if String.eqb key "KeyW"%string then pressed else Controls.forward s)
  /\ Controls.backward s' = (if String.eqb key "KeyS"%string then pressed else Controls.backward s)
  /\ Controls.left s' = (if String.eqb key "KeyA"%string then pressed else Controls.left s)
  /\ Controls.right s' = (if String.eqb key "KeyD"%string then pressed else Controls.right s).
Proof.
  cbv zeta. unfold Controls.setKey.
  destruct (String.eqb key "KeyW"%string) eqn:W.
  { apply String.eqb_eq in W. subst key. repeat split. }
  destruct (String.eqb key "KeyS"%string) eqn:S.
  { apply String.eqb_eq in S. subst key. repeat split. }
  destruct (String.eqb key "KeyA"%string) eqn:A.
  { apply String.eqb_eq in A. subst key. repeat split. }
  destruct (String.eqb key "KeyD"%string) eqn:D; repeat split.
Qed.

(** X22.  After any sequence of key events each control is in the
    state its own key was last put in (down: on, up: off), or as it was
    when its key did not occur; events of other keys change nothing. *)
Theorem X22_controls_follow_last_event (events : list Controls.KeyboardEvent)
    (s : Controls.ControlState) :
  let s' := Controls.handleEvents events s in
  Controls.forward s' = last_state "KeyW"%string events (Controls.forward s)
  /\ Controls.backward s' = last_state "KeyS"%string events (Controls.backward s)
  /\ Controls.left s' = last_state "KeyA"%string events (Controls.left s)
  /\ Controls.right s' = last_state "KeyD"%string events (Controls.right s).
Proof.
  cbv zeta. unfold Controls.handleEvents. revert s.
  induction events as [|e events IH]; intro s; cbn [fold_left last_state].
  - repeat split.
  - destruct (IH (Controls.handleEvent e s)) as [A [B [C D]]].
    rewrite A, B, C, D.
    destruct e as [code | code]; cbn [Controls.handleEvent];
      destruct (setKey_fields code true s) as [F1 [F2 [F3 F4]]];
      destruct (setKey_fields code false s) as [G1 [G2 [G3 G4]]];
      rewrite ?F1, ?F2, ?F3, ?F4, ?G1, ?G2, ?G3, ?G4; repeat split.
Qed.

Lemma slide_agree (c : SliderChange) (panel : DamageControl.State) (damage : ShipDamage) :
  DamageControl.hullIntegrity panel = hullIntegrity damage ->
  DamageControl.sailIntegrity panel = sailIntegrity damage ->
  DamageControl.mastIntegrity panel = mastIntegrity damage ->
  DamageControl.rudderIntegrity panel = rudderIntegrity damage ->
  let (panel', damage') := slide c (panel, damage) in
  DamageControl.hullIntegrity panel' = hullIntegrity damage'
  /\ DamageControl.sailIntegrity panel' = sailIntegrity damage'
  /\ DamageControl.mastIntegrity panel' = mastIntegrity damage'
  /\ DamageControl.rudderIntegrity panel' = rudderIntegrity damage'.
Proof.
  intros H S M R. destruct c; cbn; repeat split; assumption.
Qed.

Lemma slide_in_range (c : SliderChange) (panel : DamageControl.State) (damage : ShipDamage) :
  0 <= slider_value c -> slider_value c <= 1 ->
  damage_in_range damage -> damage_in_range (snd (slide c (panel, damage))).
Proof.
  intros H0 H1 [Hh [Hs [Hm Hr]]].
  destruct c; cbn in *; repeat split; try apply Hh; try apply Hs; try apply Hm;
    try apply Hr; assumption.
Qed.

(** X23.  The damage the ship is given always is what the panel shows:
    after any sequence of slider changes, starting from the panel's and
    the app's initial values, the four components of the app's damage
    equal the four values of the panel; and when every slider value lies
    in [0, 1], so does every component. *)
Theorem X23_damage_follows_panel (changes : list SliderChange) :
  let (panel, damage) := slides changes (DamageControl.initial, createDefaultShipDamage) in
  (DamageControl.hullIntegrity panel = hullIntegrity damage
   /\ DamageControl.sailIntegrity panel = sailIntegrity damage
   /\ DamageControl.mastIntegrity panel = mastIntegrity damage
   /\ DamageControl.rudderIntegrity panel = rudderIntegrity damage)
  /\ (Forall (fun c => 0 <= slider_value c /\ slider_value c <= 1) changes ->
      damage_in_range damage).
Proof.
  unfold slides.
  assert (G : forall panel damage,
            DamageControl.hullIntegrity panel = hullIntegrity damage ->
            DamageControl.sailIntegrity panel = sailIntegrity damage ->
            DamageControl.mastIntegrity panel = mastIntegrity damage ->
            DamageControl.rudderIntegrity panel = rudderIntegrity damage ->
            let (panel', damage') :=
              fold_left (fun st c => slide c st) changes (panel, damage) in
            (DamageControl.hullIntegrity panel' = hullIntegrity damage'
             /\ DamageControl.sailIntegrity panel' = sailIntegrity damage'
             /\ DamageControl.mastIntegrity panel' = mastIntegrity damage'
             /\ DamageControl.rudderIntegrity panel' = rudderIntegrity damage')
            /\ (Forall (fun c => 0 <= slider_value c /\ slider_value c <= 1) changes ->
                damage_in_range damage -> damage_in_range damage')).
  { induction changes as [|c changes IH]; intros panel damage H S M R; cbn [fold_left].
    - split; [repeat split; assumption | intros _ Hd; exact Hd].
    - pose proof (slide_agree c panel damage H S M R) as A.
      pose proof (slide_in_range c panel damage) as B.
      destruct (slide c (panel, damage)) as [panel1 damage1]. cbn [snd] in B.
      destruct A as [H1 [S1 [M1 R1]]].
      specialize (IH panel1 damage1 H1 S1 M1 R1).
      destruct (fold_left _ changes (panel1, damage1)) as [panel' damage'].
      destruct IH as [IH1 IH2]. split; [exact IH1|].
      intros Hall Hd. inversion Hall as [|c' cs [C0 C1] Hall']; subst.
      apply IH2; [exact Hall' | apply B; assumption]. }
  specialize (G DamageControl.initial createDefaultShipDamage eq_refl eq_refl eq_refl eq_refl).
  destruct (fold_left _ changes _) as [panel damage].
  destruct G as [G1 G2]. split; [exact G1|].
  intro Hall. apply G2; [exact Hall|].
  repeat split; vm_compute; discriminate.
Qed.

Lemma X23_damage_follows_panel_witness :
  damage_in_range
    (snd (slides [HullTo (1 # 2); SailTo (3 # 4); HullTo (1 # 4)]
                 (DamageControl.initial, createDefaultShipDamage))).
Proof.
  pose proof (X23_damage_follows_panel [HullTo (1 # 2); SailTo (3 # 4); HullTo (1 # 4)]) as H.
  destruct (slides _ _) as [panel damage]. cbn [snd].
  apply (proj2 H).
  repeat (apply Forall_cons; [split; vm_compute; discriminate|]). apply Forall_nil.
Defined.


End Panels.
